(** * dotproduct client: the network protocol layer (net/Protocol)

    A shallow embedding of the [Protocol] class: the outbound packet queue,
    the packet-handler registry and its dispatch, the disconnect callback,
    and the clock synchronisation arithmetic on 32-bit wrap-around
    timestamps.

    The protocol is one JavaScript object driven by an event loop.  Its
    methods are computations in a state-and-exception monad over a [World]
    that holds the fields of the instance, the ready state of its socket,
    the page clock, the live intervals, and the trace of everything the
    instance did to the outside: frames put on the socket, console output,
    handler and callback calls, timer calls.

    JavaScript numbers are IEEE 754 binary64 values.  Every number the
    protocol stores is integral and far below 2^53, where binary64
    arithmetic is exact, so those are carried as [Z]; the one fractional
    computation, [Math.floor(serverTime - clientTime0 - 0.6 * rtt)], is
    evaluated in binary64 through the Standard Library's [SpecFloat], and
    shown to be the floor of the exact value on 32-bit operands. *)

From Stdlib Require Import ZArith Lia List DecimalString.
From Stdlib Require Import Floats.SpecFloat.
From stdpp Require Import base option list gmap strings.

Local Open Scope Z_scope.

(** ** 32-bit integers *)

Module Int32.

Definition two31 : Z := 0x80000000.
Definition two32 : Z := 0x100000000.

(** ECMAScript [ToInt32] on an integral Number: reduce modulo 2^32 and
    take the representative in [-2^31, 2^31). *)
Definition ToInt32 (num : Z) : Z :=
  let int32bit := num mod two32 in
  if two31 <=? int32bit then int32bit - two32 else int32bit.

(** [private asInt32 = (num: number): number => num | 0;] *)
Definition asInt32 (num : Z) : Z := ToInt32 (Z.lor (ToInt32 num) (ToInt32 0)).

(** [if (v < 0) v += 0x100000000;] the one-step overflow correction the
    protocol applies after each timestamp subtraction. *)
Definition wrapNegative (v : Z) : Z :=
  if v <? 0 then v + 0x100000000 else v.

End Int32.

(** ** binary64 *)

Module Binary64.

Definition prec : Z := 53.
Definition emax : Z := 1024.

(** The Number nearest to an integer (exact below 2^53). *)
Definition of_Z (z : Z) : spec_float := binary_normalize prec emax z 0 false.

Definition sub : spec_float -> spec_float -> spec_float := SFsub prec emax.
Definition mul : spec_float -> spec_float -> spec_float := SFmul prec emax.

(** The literal [0.6], i.e. 0x3FE3333333333333. *)
Definition lit_0_6 : spec_float := S754_finite false 5404319552844595 (-53).

(** [Math.floor] of a finite Number, as an integer; [None] for NaN and the
    infinities, whose floor is not an integer. *)
Definition floor (x : spec_float) : option Z :=
  match x with
  | S754_zero _ => Some 0
  | S754_finite s m e =>
      let n := if s then Z.neg m else Z.pos m in
      Some (if 0 <=? e then Z.shiftl n e else Z.shiftr n (- e))
  | S754_infinity _ | S754_nan => None
  end.

End Binary64.

Import Int32.

(** ** JavaScript values *)

(** A Number is kept as an integer when it is integral; any other finite
    binary64 value (a coordinate, a velocity) is carried as such. *)
Inductive Number :=
| Int (z : Z)
| Frac (f : spec_float).

(** What [JSON.parse] yields and [JSON.stringify] accepts. *)
#[warnings="-register-all"]
Inductive json :=
| JNull
| JBool (b : bool)
| JNum (n : Number)
| JStr (s : string)
| JArr (items : list json)
| JObj (members : list (string * json)).

Definition JInt (z : Z) : json := JNum (Int z).

(** [ToBoolean]: what an [if] makes of a value.  A [Frac] is never zero. *)
Definition truthy (v : json) : bool :=
  match v with
  | JNull => false
  | JBool b => b
  | JNum (Int z) => negb (z =? 0)
  | JNum (Frac _) => true
  | JStr s => match s with EmptyString => false | String _ _ => true end
  | JArr _ | JObj _ => true
  end.

Inductive JsError :=
| TypeError (message : string)
| InvalidStateError
| Error (message : string).

(** How a call ends: it returns, it throws, or it leaves the fragment of
    JavaScript embedded here (arithmetic on NaN or on coerced non-numbers). *)
Inductive Completion (A : Type) :=
| Normal (a : A)
| Abrupt (e : JsError)
| Unmodelled.

Arguments Normal {A} a.
Arguments Abrupt {A} e.
Arguments Unmodelled {A}.

(** [function assert(predicate, message) { if (!predicate) throw new Error(message); }] *)
Definition assert (predicate : bool) (message : string) : Completion unit :=
  if negb predicate then Abrupt (Error message) else Normal tt.

(** ** The packet catalogue *)

Module C2SPacketType.
Definition LOGIN : Z := 1.
Definition START_GAME : Z := 2.
Definition POSITION : Z := 3.
Definition CLOCK_SYNC : Z := 4.
Definition PLAYER_DIED : Z := 5.
Definition CHAT_MESSAGE : Z := 6.
Definition SHIP_CHANGE : Z := 7.
Definition PRIZE_COLLECTED : Z := 8.
Definition SET_PRESENCE : Z := 9.
Definition TUTORIAL_COMPLETED : Z := 10.
Definition FLAG_CAPTURED : Z := 11.
End C2SPacketType.

Module S2CPacketType.
Definition LOGIN_REPLY : Z := 1.
Definition PLAYER_ENTERED : Z := 2.
Definition PLAYER_LEFT : Z := 3.
Definition PLAYER_POSITION : Z := 4.
Definition CLOCK_SYNC_REPLY : Z := 5.
Definition PLAYER_DIED : Z := 6.
Definition CHAT_MESSAGE : Z := 7.
Definition SHIP_CHANGE : Z := 8.
Definition SCORE_UPDATE : Z := 9.
Definition PRIZE_SEED_UPDATE : Z := 10.
Definition PRIZE_COLLECTED : Z := 11.
Definition SET_PRESENCE : Z := 12.
Definition FLAG_UPDATE : Z := 13.
End S2CPacketType.

(** ** The objects the protocol holds *)

(** [WebSocket.readyState]. *)
Inductive ReadyState := CONNECTING | OPEN | CLOSING | CLOSED.

Global Instance ReadyState_eq_dec : EqDecision ReadyState.
Proof. solve_decision. Defined.

(** A registered packet handler: the protocol's own [onClockSyncReply], or a
    callback of the application, known by a number.  Application callbacks
    return normally, leave the packet array they are given as it is, and do
    not call back into the protocol while a packet is being dispatched. *)
Inductive PacketHandler :=
| OnClockSyncReply
| Extern (id : nat).

Global Instance PacketHandler_eq_dec : EqDecision PacketHandler.
Proof. solve_decision. Defined.

(** The disconnect callback: the initial [() => {}] or one of the
    application's. *)
Inductive VoidFunction :=
| Noop
| Callback (id : nat).

Global Instance VoidFunction_eq_dec : EqDecision VoidFunction.
Proof. solve_decision. Defined.

(** [math/Vector]. *)
Record Vector := { x : Number; y : Number }.

(** The simulation object, seen through the one method the protocol calls:
    its clock, in whole milliseconds.  The game advances it between calls. *)
Record Simulation := { getTimeMillis : Z }.

(** Everything a run leaves behind outside the protocol's own fields, in
    the order it happened. *)
Inductive Effect :=
| SocketSend (packet : string)
| ConsoleError (data : string)
| ConsoleWarn (obj : json)
| Invoke (handler : PacketHandler) (packet : list json)
| Notify (cb : VoidFunction)
| SetInterval (id period : Z)
| ClearInterval (id : Z).

Record World := {
  (* fields of the Protocol instance *)
  packetQueue : list string;
  eventHandler : VoidFunction;
  handlers : gmap Z (list PacketHandler);
  syncTimer : Z;
  serverTimeDelta : Z;
  roundTripTime : Z;
  simulation : option Simulation;
  (* this.socket *)
  readyState : ReadyState;
  (* the page around it *)
  Date_now : Z;
  intervals : gset Z;
  nextInterval : Z;
  effects : list Effect
}.

Definition set_packetQueue (v : list string) (w : World) : World :=
  {| packetQueue := v; eventHandler := eventHandler w; handlers := handlers w;
     syncTimer := syncTimer w; serverTimeDelta := serverTimeDelta w;
     roundTripTime := roundTripTime w; simulation := simulation w;
     readyState := readyState w; Date_now := Date_now w;
     intervals := intervals w; nextInterval := nextInterval w;
     effects := effects w |}.

Definition set_eventHandler (v : VoidFunction) (w : World) : World :=
  {| packetQueue := packetQueue w; eventHandler := v; handlers := handlers w;
     syncTimer := syncTimer w; serverTimeDelta := serverTimeDelta w;
     roundTripTime := roundTripTime w; simulation := simulation w;
     readyState := readyState w; Date_now := Date_now w;
     intervals := intervals w; nextInterval := nextInterval w;
     effects := effects w |}.

Definition set_handlers (v : gmap Z (list PacketHandler)) (w : World) : World :=
  {| packetQueue := packetQueue w; eventHandler := eventHandler w; handlers := v;
     syncTimer := syncTimer w; serverTimeDelta := serverTimeDelta w;
     roundTripTime := roundTripTime w; simulation := simulation w;
     readyState := readyState w; Date_now := Date_now w;
     intervals := intervals w; nextInterval := nextInterval w;
     effects := effects w |}.

Definition set_syncTimer (v : Z) (w : World) : World :=
  {| packetQueue := packetQueue w; eventHandler := eventHandler w; handlers := handlers w;
     syncTimer := v; serverTimeDelta := serverTimeDelta w;
     roundTripTime := roundTripTime w; simulation := simulation w;
     readyState := readyState w; Date_now := Date_now w;
     intervals := intervals w; nextInterval := nextInterval w;
     effects := effects w |}.

Definition set_serverTimeDelta (v : Z) (w : World) : World :=
  {| packetQueue := packetQueue w; eventHandler := eventHandler w; handlers := handlers w;
     syncTimer := syncTimer w; serverTimeDelta := v;
     roundTripTime := roundTripTime w; simulation := simulation w;
     readyState := readyState w; Date_now := Date_now w;
     intervals := intervals w; nextInterval := nextInterval w;
     effects := effects w |}.

Definition set_roundTripTime (v : Z) (w : World) : World :=
  {| packetQueue := packetQueue w; eventHandler := eventHandler w; handlers := handlers w;
     syncTimer := syncTimer w; serverTimeDelta := serverTimeDelta w;
     roundTripTime := v; simulation := simulation w;
     readyState := readyState w; Date_now := Date_now w;
     intervals := intervals w; nextInterval := nextInterval w;
     effects := effects w |}.

Definition set_simulation (v : option Simulation) (w : World) : World :=
  {| packetQueue := packetQueue w; eventHandler := eventHandler w; handlers := handlers w;
     syncTimer := syncTimer w; serverTimeDelta := serverTimeDelta w;
     roundTripTime := roundTripTime w; simulation := v;
     readyState := readyState w; Date_now := Date_now w;
     intervals := intervals w; nextInterval := nextInterval w;
     effects := effects w |}.

Definition set_readyState (v : ReadyState) (w : World) : World :=
  {| packetQueue := packetQueue w; eventHandler := eventHandler w; handlers := handlers w;
     syncTimer := syncTimer w; serverTimeDelta := serverTimeDelta w;
     roundTripTime := roundTripTime w; simulation := simulation w;
     readyState := v; Date_now := Date_now w;
     intervals := intervals w; nextInterval := nextInterval w;
     effects := effects w |}.

Definition set_Date_now (v : Z) (w : World) : World :=
  {| packetQueue := packetQueue w; eventHandler := eventHandler w; handlers := handlers w;
     syncTimer := syncTimer w; serverTimeDelta := serverTimeDelta w;
     roundTripTime := roundTripTime w; simulation := simulation w;
     readyState := readyState w; Date_now := v;
     intervals := intervals w; nextInterval := nextInterval w;
     effects := effects w |}.

Definition set_intervals (v : gset Z) (n : Z) (w : World) : World :=
  {| packetQueue := packetQueue w; eventHandler := eventHandler w; handlers := handlers w;
     syncTimer := syncTimer w; serverTimeDelta := serverTimeDelta w;
     roundTripTime := roundTripTime w; simulation := simulation w;
     readyState := readyState w; Date_now := Date_now w;
     intervals := v; nextInterval := n;
     effects := effects w |}.

Definition set_effects (v : list Effect) (w : World) : World :=
  {| packetQueue := packetQueue w; eventHandler := eventHandler w; handlers := handlers w;
     syncTimer := syncTimer w; serverTimeDelta := serverTimeDelta w;
     roundTripTime := roundTripTime w; simulation := simulation w;
     readyState := readyState w; Date_now := Date_now w;
     intervals := intervals w; nextInterval := nextInterval w;
     effects := v |}.

(** ** Computations: state, exceptions *)

Definition M (A : Type) : Type := World -> Completion A * World.

Global Instance M_ret : MRet M := fun A a w => (Normal a, w).

Global Instance M_bind : MBind M := fun A B f c w =>
  match c w with
  | (Normal a, w') => f a w'
  | (Abrupt e, w') => (Abrupt e, w')
  | (Unmodelled, w') => (Unmodelled, w')
  end.

Definition gets {A} (f : World -> A) : M A := fun w => (Normal (f w), w).
Definition modify (f : World -> World) : M unit := fun w => (Normal tt, f w).
Definition throw {A} (e : JsError) : M A := fun w => (Abrupt e, w).
Definition unmodelled {A} : M A := fun w => (Unmodelled, w).
Definition emit (e : Effect) : M unit :=
  modify (fun w => set_effects (effects w ++ [e]) w).

(** The world a computation leaves, however it ends. *)
Definition exec {A} (c : M A) (w : World) : World := snd (c w).

(** [Array.prototype.forEach] over an array the callback does not touch. *)
Fixpoint forEach {A} (f : A -> M unit) (l : list A) : M unit :=
  match l with
  | [] => mret tt
  | a :: l' => f a ;; forEach f l'
  end.

(** ** The browser and the timer module *)

(** [WebSocket.send]: it throws while the socket is still connecting, puts
    the frame on the wire when open, and drops it once closing or closed. *)
Definition socket_send (packet : string) : M unit :=
  rs ← gets readyState;
  match rs with
  | CONNECTING => throw InvalidStateError
  | OPEN => emit (SocketSend packet)
  | CLOSING | CLOSED => mret tt
  end.

(** [console.error] and [console.warn].  A message is recorded by what it
    is about; its text is not built (building it turns the frame into a
    string, which is taken to succeed). *)
Definition console_error (data : string) : M unit := emit (ConsoleError data).
Definition console_warn (obj : json) : M unit := emit (ConsoleWarn obj).

(** Modelled from the spec: [time/Timer] is not among the sources.  The spec
    has the protocol own one periodic timer (a clock-sync probe every 2000 ms)
    that is cancelled when the connection closes: [setInterval] hands out a
    fresh handle and starts the interval, [clearInterval] stops the interval
    with that handle and does nothing for any other number. *)
Definition Timer_setInterval (period : Z) : M Z :=
  id ← gets nextInterval;
  modify (fun w => set_intervals (intervals w ∪ {[id]}) (id + 1) w);;
  emit (SetInterval id period);;
  mret id.

Definition Timer_clearInterval (id : Z) : M unit :=
  modify (fun w => set_intervals (intervals w ∖ {[id]}) (nextInterval w) w);;
  emit (ClearInterval id).

(** Calling a [VoidFunction]. *)
Definition call (cb : VoidFunction) : M unit := emit (Notify cb).

(** [obj[0]] for a parsed frame: the first element of an array, the first
    character of a string, member ["0"] of an object, [undefined] ([None])
    for a number or a boolean, and a TypeError for [null]. *)
Fixpoint member0 (members : list (string * json)) : option json :=
  match members with
  | [] => None
  | (k, v) :: rest =>
      match member0 rest with
      | Some later => Some later
      | None => if String.eqb k "0" then Some v else None
      end
  end.

Definition index0 (obj : json) : M (option json) :=
  match obj with
  | JNull => throw (TypeError "Cannot read properties of null (reading '0')")
  | JBool _ | JNum _ => mret None
  | JStr s =>
      mret match s with
           | EmptyString => None
           | String c _ => Some (JStr (String c EmptyString))
           end
  | JArr items => mret (head items)
  | JObj members => mret (member0 members)
  end.

(** [obj.slice(1)]: only arrays and strings have the method. *)
Definition slice1 (obj : json) : M (list json) :=
  match obj with
  | JArr items => mret (tail items)
  | JStr _ => unmodelled
  | _ => throw (TypeError "obj.slice is not a function")
  end.

(** [Map.prototype.get] on a map keyed by the integral packet types: only an
    integral Number can be one of its keys. *)
Definition handlers_get (m : gmap Z (list PacketHandler)) (key : option json)
  : option (list PacketHandler) :=
  match key with
  | Some (JNum (Int z)) => m !! z
  | _ => None
  end.

(** [packet[i]] read as an integral Number. *)
Definition integer_at (packet : list json) (i : nat) : M Z :=
  match packet !! i with
  | Some (JNum (Int z)) => mret z
  | _ => unmodelled
  end.

(** [Math.floor(serverTime - clientTime0 - 0.6 * rtt)] in binary64. *)
Definition floor_delta (serverTime clientTime0 rtt : Z) : option Z :=
  Binary64.floor
    (Binary64.sub
       (Binary64.sub (Binary64.of_Z serverTime) (Binary64.of_Z clientTime0))
       (Binary64.mul Binary64.lit_0_6 (Binary64.of_Z rtt))).

(** ** class Protocol *)

Module Protocol.
Section Protocol.

(** [JSON.parse] ([None] when it throws a SyntaxError) and
    [JSON.stringify]. *)
Variable JSON_parse : string -> option json.
Variable JSON_stringify : json -> string.

Definition PROTOCOL_VERSION : string := "dotproduct.v1".
Definition CLOCK_SYNC_PERIOD : Z := 2000.

Definition asInt32 (num : Z) : Z := Int32.asInt32 num.

Definition send (data : json) : M unit :=
  let packet := JSON_stringify data in
  rs ← gets readyState;
  if bool_decide (rs ≠ OPEN) then
    modify (fun w => set_packetQueue (packetQueue w ++ [packet]) w)
  else
    socket_send packet.


Definition getRoundTripTime : M Z := gets roundTripTime.

Definition registerEventHandler (cb : VoidFunction) : M unit :=
  modify (set_eventHandler cb).

Definition registerPacketHandler (packetType : Z) (cb : PacketHandler) : M unit :=
  hs ← gets handlers;
  (if bool_decide (is_Some (hs !! packetType)) then mret tt
   else modify (fun w => set_handlers (<[packetType := []]> (handlers w)) w));;
  modify (fun w => set_handlers (alter (fun l => l ++ [cb]) packetType (handlers w)) w).

Definition remoteTime : M Z :=
  sim ← gets simulation;
  match sim with
  | Some sim =>
      delta ← gets serverTimeDelta;
      mret (asInt32 (getTimeMillis sim + delta))
  | None => mret 0
  end.

Definition login (loginData : json) : M unit :=
  send (JArr [JInt C2SPacketType.LOGIN; loginData]).

Definition syncClocks : M unit :=
  now ← gets Date_now;
  send (JArr [JInt C2SPacketType.CLOCK_SYNC; JInt (asInt32 now)]).

Definition startGame (sim : Simulation) (ship : Z) : M unit :=
  modify (set_simulation (Some sim));;
  now ← gets Date_now;
  send (JArr [JInt C2SPacketType.START_GAME; JInt ship; JInt (asInt32 now)]);;
  id ← Timer_setInterval CLOCK_SYNC_PERIOD;
  modify (set_syncTimer id).

Definition sendPosition (direction : Number) (position velocity : Vector)
    (isSafe : bool) (weaponData : option json) : M unit :=
  t ← remoteTime;
  let packet :=
    [JInt C2SPacketType.POSITION; JInt t; JNum direction;
     JNum (x position); JNum (y position);
     JNum (x velocity); JNum (y velocity); JBool isSafe] in
  let packet :=
    match weaponData with
    | Some wd => if truthy wd then packet ++ [wd] else packet
    | None => packet
    end in
  send (JArr packet).

Definition sendDeath (position : Vector) (killer_id : Z) : M unit :=
  send (JArr [JInt C2SPacketType.PLAYER_DIED; JNum (x position);
              JNum (y position); JInt killer_id]).

Definition sendChat (message : string) : M unit :=
  send (JArr [JInt C2SPacketType.CHAT_MESSAGE; JStr message]).

Definition sendShipChange (ship : Z) : M unit :=
  send (JArr [JInt C2SPacketType.SHIP_CHANGE; JInt ship]).

Definition sendPrizeCollected (type : Z) (px py : Number) : M unit :=
  send (JArr [JInt C2SPacketType.PRIZE_COLLECTED; JInt type; JNum px; JNum py]).

Definition sendSetPresence (presence : Z) : M unit :=
  send (JArr [JInt C2SPacketType.SET_PRESENCE; JInt presence]).

Definition sendFlagCaptured (id : Z) : M unit :=
  t ← remoteTime;
  send (JArr [JInt C2SPacketType.FLAG_CAPTURED; JInt t; JInt id]).

Definition onOpen : M unit :=
  queue ← gets packetQueue;
  forEach socket_send queue;;
  modify (set_packetQueue []).

Definition onClose : M unit :=
  id ← gets syncTimer;
  Timer_clearInterval id;;
  modify (set_syncTimer 0);;
  modify (set_packetQueue []);;
  cb ← gets eventHandler;
  call cb.

Definition onClockSyncReply (packet : list json) : M unit :=
  clientTime0 ← integer_at packet 0;
  serverTime ← integer_at packet 1;
  now ← gets Date_now;
  let rtt := asInt32 now - clientTime0 in
  let rtt := if rtt <? 0 then rtt + 0x100000000 else rtt in
  modify (set_roundTripTime rtt);;
  match floor_delta serverTime clientTime0 rtt with
  | None => unmodelled
  | Some d =>
      modify (set_serverTimeDelta d);;
      delta ← gets serverTimeDelta;
      if delta <? 0 then modify (set_serverTimeDelta (delta + 0x100000000))
      else mret tt
  end.

(** Calling one registered handler on a packet. *)
Definition invoke (handler : PacketHandler) (packet : list json) : M unit :=
  emit (Invoke handler packet);;
  match handler with
  | OnClockSyncReply => onClockSyncReply packet
  | Extern _ => mret tt
  end.

Definition onMessage (data : string) : M unit :=
  match JSON_parse data with
  | None => console_error data
  | Some obj =>
      tag ← index0 obj;
      hs ← gets handlers;
      match handlers_get hs tag with
      | Some packetHandlers =>
          slicedObj ← slice1 obj;
          forEach (fun handler => invoke handler slicedObj) packetHandlers
      | None => console_warn obj
      end
  end.

Definition initializePacketHandlers : M unit :=
  registerPacketHandler S2CPacketType.CLOCK_SYNC_REPLY OnClockSyncReply.

(** The instance before the constructor body runs: the field
    initialisers, a socket that has just been told to connect, and a page
    whose clock reads [now]. *)
Definition fresh (now : Z) : World :=
  {| packetQueue := []; eventHandler := Noop; handlers := ∅;
     syncTimer := 0; serverTimeDelta := 0; roundTripTime := 0;
     simulation := None;
     readyState := CONNECTING;
     Date_now := now; intervals := ∅; nextInterval := 1; effects := [] |}.

(** [new Protocol(url)]. *)
Definition new (now : Z) : World := exec initializePacketHandlers (fresh now).

(** ** What can happen to an instance *)

Inductive Action :=
| RegisterEventHandler (cb : VoidFunction)
| RegisterPacketHandler (packetType : Z) (cb : PacketHandler)
| Login (loginData : json)
| StartGame (sim : Simulation) (ship : Z)
| SendPosition (direction : Number) (position velocity : Vector)
    (isSafe : bool) (weaponData : option json)
| SendDeath (position : Vector) (killer_id : Z)
| SendChat (message : string)
| SendShipChange (ship : Z)
| SendPrizeCollected (type : Z) (px py : Number)
| SendSetPresence (presence : Z)
| SendFlagCaptured (id : Z)
| SocketOpened
| SocketError
| SocketClosed
| SocketMessage (data : string)
| IntervalElapsed (id : Z)
| ClockReads (now : Z)
| SimulationReads (millis : Z).

(** The socket reports [open] once it is OPEN, and [error] and [close]
    once it is CLOSED; an interval fires only while it is live; the page
    clock and the simulation clock move on their own. *)
Definition perform (a : Action) : M unit :=
  match a with
  | RegisterEventHandler cb => registerEventHandler cb
  | RegisterPacketHandler t cb => registerPacketHandler t cb
  | Login d => login d
  | StartGame sim ship => startGame sim ship
  | SendPosition d p v s wd => sendPosition d p v s wd
  | SendDeath p k => sendDeath p k
  | SendChat m => sendChat m
  | SendShipChange s => sendShipChange s
  | SendPrizeCollected t px py => sendPrizeCollected t px py
  | SendSetPresence p => sendSetPresence p
  | SendFlagCaptured id => sendFlagCaptured id
  | SocketOpened => modify (set_readyState OPEN);; onOpen
  | SocketError => modify (set_readyState CLOSED);; onClose
  | SocketClosed => modify (set_readyState CLOSED);; onClose
  | SocketMessage data => onMessage data
  | IntervalElapsed id =>
      live ← gets intervals;
      if bool_decide (id ∈ live) then syncClocks else mret tt
  | ClockReads now => modify (set_Date_now now)
  | SimulationReads millis =>
      modify (fun w =>
        set_simulation ((fun _ => {| getTimeMillis := millis |}) <$> simulation w) w)
  end.

(** A run of the event loop: each action to its end, an uncaught
    exception ending that one action only. *)
Definition run (actions : list Action) (w : World) : World :=
  foldl (fun w a => exec (perform a) w) w actions.

(** ** Reading a trace *)

Definition transmitted (w : World) : list string :=
  omap (fun e => match e with SocketSend p => Some p | _ => None end) (effects w).

Definition notified (w : World) : list VoidFunction :=
  omap (fun e => match e with Notify cb => Some cb | _ => None end) (effects w).


Definition is_closing (a : Action) : bool :=
  match a with
  | SocketError | SocketClosed => true
  | _ => false
  end.

End Protocol.
End Protocol.

(** ** Vocabulary of the statements *)

(** [keeps f c]: however [c] ends, the observation [f] of the world is what
    it was. *)
Definition keeps {A B} (f : World -> B) (c : M A) : Prop :=
  forall w, f (snd (c w)) = f w.

Definition is_Notify (e : Effect) : bool :=
  match e with Notify _ => true | _ => false end.

(** The disconnect notifications a run should produce if every [error] and
    every [close] event calls the callback registered last before it;
    [current] is the callback in place when the run starts. *)
Fixpoint notifications (current : VoidFunction) (actions : list Protocol.Action)
  : list VoidFunction :=
  match actions with
  | [] => []
  | Protocol.RegisterEventHandler cb :: rest => notifications cb rest
  | a :: rest =>
      if Protocol.is_closing a then current :: notifications current rest
      else notifications current rest
  end.

Definition is_registration (a : Protocol.Action) : bool :=
  match a with Protocol.RegisterEventHandler _ => true | _ => false end.

Definition closings (actions : list Protocol.Action) : nat :=
  length (filter (fun a => Protocol.is_closing a = true) actions).


(** ** A codec for the examples *)

(** A printer for the integral packets of the examples, and a reader for the
    few frames they receive; any other frame is no JSON to this reader. *)
Module Sample.

Fixpoint stringify (j : json) : string :=
  match j with
  | JNull => "null"
  | JBool true => "true"
  | JBool false => "false"
  | JNum (Int z) => NilZero.string_of_int (Z.to_int z)
  | JArr items => "[" ++ String.concat "," (map stringify items) ++ "]"
  | JNum (Frac _) | JStr _ | JObj _ => EmptyString
  end%string.

Definition parse (data : string) : option json :=
  if String.eqb data "[2,7]" then Some (JArr [JInt 2; JInt 7])
  else if String.eqb data "[99]" then Some (JArr [JInt 99])
  else if String.eqb data "[5,1000,5000]" then Some (JArr [JInt 5; JInt 1000; JInt 5000])
  else if String.eqb data "null" then Some JNull
  else None.


End Sample.

(** ** Vocabulary for binary64 rounding *)

(** Every float met below has an exponent of at least [- scale], so that
    [2 ^ scale] times its value is an integer. *)
Definition clean (mrs : shr_record) : Prop := shr_r mrs = false /\ shr_s mrs = false.

Definition scale : Z := 106.

(** Scaled value: 2^scale times the number a float stands for. *)
Definition sval (f : spec_float) : Z :=
  match f with
  | S754_finite s m e => (if s then Z.neg m else Z.pos m) * 2 ^ (e + scale)
  | _ => 0
  end.

Definition fits (lo : Z) (f : spec_float) : Prop :=
  match f with
  | S754_zero _ => True
  | S754_finite _ _ e => lo <= e
  | _ => False
  end.

(** [V'] is [V] rounded down or up to a multiple of [P]. *)
Definition faithful (P V V' : Z) : Prop :=
  (exists M, V' = M * P)
  /\ forall T, (T * P <= V -> T * P <= V') /\ (V <= T * P -> V' <= T * P).

(** What one rounding to 53 bits does to a scaled value [V]: zero stays
    zero; otherwise, with [2^j] the weight of the last of the 53 bits that
    [V] needs, the result is [V] rounded down or up to a multiple of [2^j]. *)
Definition rounded (V : Z) (f : spec_float) : Prop :=
  (V = 0 /\ f = S754_zero false)
  \/ exists j,
       0 <= j
       /\ 2 ^ j * 2 ^ 52 <= Z.abs V < 2 ^ j * 2 ^ 53
       /\ fits (j - scale) f
       /\ faithful (2 ^ j) V (sval f).

(** [V'] is within [B] of [V] and on the same side of every integer
    (a multiple of 2^scale) as [V]. *)
Definition near (B V V' : Z) : Prop :=
  V - B < V' < V + B
  /\ forall N, (N * 2 ^ scale <= V -> N * 2 ^ scale <= V') /\ (V <= N * 2 ^ scale -> V' <= N * 2 ^ scale).

(** ** Vocabulary for properties of runs *)

(** [preserves P c]: if [P] holds of the world before [c], it holds of the
    world [c] leaves, however [c] ends. *)
Definition preserves {A} (P : World -> Prop) (c : M A) : Prop :=
  forall w, P w -> P (snd (c w)).

(** [returns c]: [c] returns normally from every world. *)
Definition returns {A} (c : M A) : Prop :=
  forall w, exists a w', c w = (Normal a, w').

Definition is_opening (a : Protocol.Action) : bool :=
  match a with Protocol.SocketOpened => true | _ => false end.

Definition is_socket_event (a : Protocol.Action) : bool :=
  match a with
  | Protocol.SocketOpened | Protocol.SocketError | Protocol.SocketClosed => true
  | _ => false
  end.

Definition is_message (a : Protocol.Action) : bool :=
  match a with Protocol.SocketMessage _ => true | _ => false end.

Definition is_startGame (a : Protocol.Action) : bool :=
  match a with Protocol.StartGame _ _ => true | _ => false end.

(** The parsed frames on which [onMessage] ends in a TypeError: [null],
    whose element 0 cannot be read, and an object whose member ["0"] is a
    registered packet type, which has no [slice]. *)
Definition frame_throws (hs : gmap Z (list PacketHandler)) (frame : option json) : Prop :=
  match frame with
  | Some JNull => True
  | Some (JObj members) => is_Some (handlers_get hs (member0 members))
  | _ => False
  end.

(** Every live interval is the one recorded in [syncTimer]. *)
Definition one_interval (w : World) : Prop :=
  forall id, id ∈ intervals w -> id = syncTimer w.

(** ** The callers *)

(** What the constructor of [Application] does with its protocol: it creates
    it, registers its [startGame_] for login replies, and logs in. *)
Module Application.

Definition startGame_ : PacketHandler := Extern 0.

Definition loginData (strategy accessToken : json) : json :=
  JObj [("strategy"%string, strategy); ("accessToken"%string, accessToken)].

Definition constructor (strategy accessToken : json) : list Protocol.Action :=
  [Protocol.RegisterPacketHandler S2CPacketType.LOGIN_REPLY startGame_;
   Protocol.Login (loginData strategy accessToken)].

End Application.

(** What the constructor of [Game] does with the protocol it is given. *)
Module Game.

Definition onConnectionLost_ : VoidFunction := Callback 0.
Definition onPlayerEntered_ : PacketHandler := Extern 1.
Definition onPlayerLeft_ : PacketHandler := Extern 2.
Definition onPlayerDied_ : PacketHandler := Extern 3.
Definition onChatMessage_ : PacketHandler := Extern 4.

Definition constructor (simulation_ : Simulation) (ship : Z) : list Protocol.Action :=
  [Protocol.RegisterEventHandler onConnectionLost_;
   Protocol.RegisterPacketHandler S2CPacketType.PLAYER_ENTERED onPlayerEntered_;
   Protocol.RegisterPacketHandler S2CPacketType.PLAYER_LEFT onPlayerLeft_;
   Protocol.RegisterPacketHandler S2CPacketType.PLAYER_DIED onPlayerDied_;
   Protocol.RegisterPacketHandler S2CPacketType.CHAT_MESSAGE onChatMessage_;
   Protocol.StartGame simulation_ ship].

End Game.

(** * Properties *)

(** ** 32-bit arithmetic *)

Lemma ToInt32_range (num : Z) : - two31 <= ToInt32 num < two31.
Proof.
  unfold ToInt32, two31, two32.
  pose proof (Z.mod_pos_bound num 0x100000000 ltac:(lia)) as Hb.
  destruct (Z.leb_spec 0x80000000 (num mod 0x100000000)); lia.
Qed.

Lemma ToInt32_small (num : Z) : - two31 <= num < two31 -> ToInt32 num = num.
Proof.
  unfold ToInt32, two31, two32. intros Hn.
  destruct (Z.leb_spec 0x80000000 (num mod 0x100000000));
    Z.div_mod_to_equations; lia.
Qed.

Lemma ToInt32_congruent (num : Z) : exists k, ToInt32 num = num + k * two32.
Proof.
  unfold ToInt32, two31, two32.
  pose proof (Z.div_mod num 0x100000000 ltac:(lia)) as Hd.
  destruct (Z.leb_spec 0x80000000 (num mod 0x100000000)).
  - exists (- (num / 0x100000000) - 1). lia.
  - exists (- (num / 0x100000000)). lia.
Qed.

Lemma asInt32_ToInt32 (num : Z) : asInt32 num = ToInt32 num.
Proof.
  unfold asInt32. change (ToInt32 0) with 0. rewrite Z.lor_0_r.
  apply ToInt32_small, ToInt32_range.
Qed.

Lemma asInt32_range (num : Z) : - two31 <= asInt32 num < two31.
Proof. rewrite asInt32_ToInt32. apply ToInt32_range. Qed.

Lemma asInt32_congruent (num : Z) : exists k, asInt32 num = num + k * two32.
Proof. rewrite asInt32_ToInt32. apply ToInt32_congruent. Qed.

Lemma asInt32_mod (num : Z) : asInt32 num mod two32 = num mod two32.
Proof.
  destruct (asInt32_congruent num) as [k ->].
  apply Z.mod_add. unfold two32. lia.
Qed.

Lemma wrapNegative_cases (v : Z) :
  (v < 0 /\ wrapNegative v = v + two32) \/ (0 <= v /\ wrapNegative v = v).
Proof. unfold wrapNegative, two32. destruct (Z.ltb_spec v 0); lia. Qed.

Lemma wrapNegative_range (v : Z) :
  - two32 <= v < two32 -> 0 <= wrapNegative v < two32.
Proof. destruct (wrapNegative_cases v); unfold two32 in *; lia. Qed.

Example asInt32_small : asInt32 1200 = 1200.
Proof. reflexivity. Qed.

Example asInt32_wraps : asInt32 0x80000009 = -2147483639.
Proof. reflexivity. Qed.

Example asInt32_epoch : asInt32 1762041600000 = 1105008640.
Proof. reflexivity. Qed.

Example floor_delta_scenario : floor_delta 5000 1000 200 = Some 3880.
Proof. vm_compute. reflexivity. Qed.

Example floor_delta_fraction : floor_delta 0 0 1 = Some (-1).
Proof. vm_compute. reflexivity. Qed.

(** ** binary64 arithmetic on 32-bit operands *)

Lemma digits2_bounds (p : positive) :
  2 ^ (Z.pos (digits2_pos p) - 1) <= Z.pos p < 2 ^ Z.pos (digits2_pos p).
Proof.
  induction p as [p IH|p IH|]; simpl digits2_pos.
  - rewrite Pos2Z.inj_succ.
    replace (Z.succ (Z.pos (digits2_pos p)) - 1) with (Z.succ (Z.pos (digits2_pos p) - 1)) by lia.
    rewrite !Z.pow_succ_r by lia. lia.
  - rewrite Pos2Z.inj_succ.
    replace (Z.succ (Z.pos (digits2_pos p)) - 1) with (Z.succ (Z.pos (digits2_pos p) - 1)) by lia.
    rewrite !Z.pow_succ_r by lia. lia.
  - simpl. lia.
Qed.

Lemma digits2_unique (p : positive) (d : Z) :
  2 ^ (d - 1) <= Z.pos p < 2 ^ d -> Z.pos (digits2_pos p) = d.
Proof.
  intros [Hl Hu]. pose proof (digits2_bounds p) as [Hl' Hu'].
  assert (0 < d) as Hd.
  { destruct (Z.lt_ge_cases 0 d) as [|Hd]; [assumption|].
    destruct (Z.eq_dec d 0) as [->|Hne]; [simpl in Hu; lia|].
    rewrite Z.pow_neg_r in Hu by lia. lia. }
  destruct (Z.lt_trichotomy (Z.pos (digits2_pos p)) d) as [Hlt|[Heq|Hgt]]; [|exact Heq|].
  - assert (2 ^ Z.pos (digits2_pos p) <= 2 ^ (d - 1)) by (apply Z.pow_le_mono_r; lia). lia.
  - assert (2 ^ d <= 2 ^ (Z.pos (digits2_pos p) - 1)) by (apply Z.pow_le_mono_r; lia). lia.
Qed.

Lemma iter_pos_iter {A} (f : A -> A) (p : positive) (a : A) :
  SpecFloat.iter_pos f p a = Pos.iter f a p.
Proof.
  revert a. induction p as [p IH|p IH|]; intros a; simpl.
  - rewrite !IH. rewrite <- !Pos.iter_swap. reflexivity.
  - rewrite !IH. reflexivity.
  - reflexivity.
Qed.

Lemma shr_1_m (mrs : shr_record) :
  0 <= shr_m mrs -> shr_m (shr_1 mrs) = shr_m mrs / 2.
Proof.
  destruct mrs as [m r s]. simpl. intros Hm.
  destruct m as [|p|p]; [reflexivity| |lia].
  destruct p as [p|p|]; simpl shr_m.
  - rewrite <- Z.div2_div. reflexivity.
  - rewrite <- Z.div2_div. reflexivity.
  - reflexivity.
Qed.

Lemma shr_1_clean (mrs : shr_record) :
  0 <= shr_m mrs -> shr_m mrs mod 2 = 0 -> clean mrs -> clean (shr_1 mrs).
Proof.
  destruct mrs as [m r s]. simpl. intros Hm He [Hr Hs]. simpl in *. subst r s.
  destruct m as [|p|p]; [split; reflexivity| |lia].
  destruct p as [p|p|]; simpl; try (split; reflexivity).
  - exfalso. rewrite Pos2Z.inj_xI in He. Z.div_mod_to_equations. lia.
  - exfalso. simpl in He. discriminate.
Qed.

Lemma shr_iter (n : positive) (mrs : shr_record) :
  0 <= shr_m mrs ->
  shr_m (SpecFloat.iter_pos shr_1 n mrs) = shr_m mrs / 2 ^ Z.pos n
  /\ (shr_m mrs mod 2 ^ Z.pos n = 0 -> clean mrs -> clean (SpecFloat.iter_pos shr_1 n mrs)).
Proof.
  intros Hm. rewrite iter_pos_iter.
  induction n as [|n IH] using Pos.peano_ind.
  - simpl Pos.iter. change (2 ^ 1) with 2. split.
    + apply shr_1_m. exact Hm.
    + intros He Hc. apply shr_1_clean; assumption.
  - rewrite Pos.iter_succ. destruct IH as [IHm IHc].
    rewrite Pos2Z.inj_succ, Z.pow_succ_r by lia.
    assert (0 < 2 ^ Z.pos n) as Hp by (apply Z.pow_pos_nonneg; lia).
    assert (0 <= shr_m (Pos.iter shr_1 mrs n)) as Hm'.
    { rewrite IHm. apply Z.div_pos; lia. }
    split.
    + rewrite shr_1_m by exact Hm'. rewrite IHm.
      rewrite Z.div_div by lia. f_equal. lia.
    + intros He Hc.
      assert (shr_m mrs mod 2 ^ Z.pos n = 0 /\ (shr_m mrs / 2 ^ Z.pos n) mod 2 = 0) as [H1 H2].
      { pose proof (Z.div_mod (shr_m mrs) (2 * 2 ^ Z.pos n) ltac:(lia)) as E.
        rewrite He in E.
        set (k := shr_m mrs / (2 * 2 ^ Z.pos n)) in *.
        assert (shr_m mrs = (2 * k) * 2 ^ Z.pos n) as E' by lia.
        rewrite E'. rewrite Z.mod_mul, Z.div_mul by lia.
        split; [reflexivity|]. rewrite Z.mul_comm. apply Z.mod_mul. lia. }
      apply shr_1_clean; [exact Hm'|rewrite IHm; exact H2|apply IHc; assumption].
Qed.

Lemma round_nearest_even_faithful (m : Z) (l : location) :
  m <= round_nearest_even m l <= m + 1.
Proof. destruct l as [|[| |]]; simpl; try lia. destruct (Z.even m); lia. Qed.

Lemma round_nearest_even_clean (mrs : shr_record) :
  clean mrs -> round_nearest_even (shr_m mrs) (loc_of_shr_record mrs) = shr_m mrs.
Proof. destruct mrs as [m r s]. intros [Hr Hs]. simpl in *. subst. reflexivity. Qed.

Lemma fexp_normal (k : Z) : -1074 <= k - 53 -> fexp Binary64.prec Binary64.emax k = k - 53.
Proof. unfold fexp, emin, Binary64.prec, Binary64.emax. lia. Qed.

Lemma shr_nop (mrs : shr_record) (e n : Z) : n <= 0 -> shr mrs e n = (mrs, e).
Proof. intros Hn. destruct n as [|p|p]; [reflexivity|lia|reflexivity]. Qed.

Lemma shr_pos (mrs : shr_record) (e n : Z) :
  0 < n -> shr mrs e n = (SpecFloat.iter_pos shr_1 (Z.to_pos n) mrs, e + n).
Proof. intros Hn. destruct n as [|p|p]; [lia|reflexivity|lia]. Qed.

Lemma round_aux_small (s : bool) (m : positive) (e : Z) :
  Z.pos (digits2_pos m) <= 53 -> -1074 <= Z.pos (digits2_pos m) + e - 53 -> e <= 971 ->
  binary_round_aux Binary64.prec Binary64.emax s (Z.pos m) e loc_Exact = S754_finite s m e.
Proof.
  intros Hd Hlo Hhi. unfold binary_round_aux, shr_fexp.
  simpl Zdigits2. rewrite fexp_normal by exact Hlo.
  rewrite shr_nop by lia. simpl shr_m. simpl loc_of_shr_record.
  simpl round_nearest_even. simpl Zdigits2. rewrite fexp_normal by exact Hlo.
  rewrite shr_nop by lia. simpl shr_m.
  unfold Binary64.emax, Binary64.prec. destruct (Z.leb_spec e (1024 - 53)); [reflexivity|lia].
Qed.

Lemma round_aux_big (s : bool) (m : positive) (e : Z) :
  let d := Z.pos (digits2_pos m) in
  let n := d - 53 in
  let q := Z.pos m / 2 ^ n in
  53 < d -> -1074 <= d + e - 53 -> d + e <= 1023 ->
  exists M,
    q <= M <= q + 1
    /\ 2 ^ 52 <= q < 2 ^ 53
    /\ (Z.pos m mod 2 ^ n = 0 -> M = q)
    /\ ((M < 2 ^ 53
         /\ binary_round_aux Binary64.prec Binary64.emax s (Z.pos m) e loc_Exact
            = S754_finite s (Z.to_pos M) (e + n))
        \/ (M = 2 ^ 53
            /\ binary_round_aux Binary64.prec Binary64.emax s (Z.pos m) e loc_Exact
               = S754_finite s (Z.to_pos (2 ^ 52)) (e + n + 1))).
Proof.
  intros d n q Hd Hlo Hhi.
  pose proof (digits2_bounds m) as [Hml Hmu]. fold d in Hml, Hmu.
  assert (0 < 2 ^ n) as Hpn by (apply Z.pow_pos_nonneg; lia).
  assert (2 ^ (d - 1) = 2 ^ n * 2 ^ 52) as E1.
  { rewrite <- Z.pow_add_r by lia. f_equal. lia. }
  assert (2 ^ d = 2 ^ n * 2 ^ 53) as E2.
  { rewrite <- Z.pow_add_r by lia. f_equal. lia. }
  assert (2 ^ 52 <= q < 2 ^ 53) as Hq.
  { split.
    - apply Z.div_le_lower_bound; [exact Hpn|]. rewrite <- E1. exact Hml.
    - apply Z.div_lt_upper_bound; [exact Hpn|]. rewrite <- E2. exact Hmu. }
  unfold binary_round_aux, shr_fexp.
  simpl Zdigits2. fold d. rewrite fexp_normal by exact Hlo.
  replace (d + e - 53 - e) with n by lia.
  rewrite shr_pos by lia.
  set (rec1 := SpecFloat.iter_pos shr_1 (Z.to_pos n) (shr_record_of_loc (Z.pos m) loc_Exact)).
  destruct (shr_iter (Z.to_pos n) (shr_record_of_loc (Z.pos m) loc_Exact))
    as [Hm1 Hc1]; [simpl; lia|].
  fold rec1 in Hm1, Hc1. rewrite Z2Pos.id in Hm1, Hc1 by lia.
  simpl shr_m in Hm1, Hc1. fold q in Hm1.
  set (M := round_nearest_even (shr_m rec1) (loc_of_shr_record rec1)).
  pose proof (round_nearest_even_faithful (shr_m rec1) (loc_of_shr_record rec1)) as HM.
  fold M in HM. rewrite Hm1 in HM.
  exists M. split; [exact HM|]. split; [exact Hq|]. split.
  { intros He. unfold M. rewrite round_nearest_even_clean; [exact Hm1|].
    apply Hc1; [exact He|split; reflexivity]. }
  assert (0 < M) as HMpos by lia.
  destruct (Z.eq_dec M (2 ^ 53)) as [HM53|HM53].
  - right. split; [exact HM53|].
    rewrite HM53.
    change (Zdigits2 (2 ^ 53)) with 54.
    rewrite fexp_normal by lia.
    rewrite shr_pos by lia.
    replace (54 + (e + n) - 53 - (e + n)) with 1 by lia.
    simpl. unfold Binary64.emax, Binary64.prec.
    match goal with |- context [?a <=? ?b] => destruct (Z.leb_spec a b) end;
      [reflexivity|lia].
  - left. split; [lia|].
    destruct M as [|pM|pM]; try lia.
    assert (Zdigits2 (Z.pos pM) = 53) as HdM.
    { simpl. apply digits2_unique. change (2 ^ (53 - 1)) with (2 ^ 52). lia. }
    rewrite HdM. rewrite fexp_normal by lia.
    rewrite shr_nop by lia. simpl shr_m.
    unfold Binary64.emax, Binary64.prec. simpl Z.to_pos.
    match goal with |- context [?a <=? ?b] => destruct (Z.leb_spec a b) end;
      [reflexivity|lia].
Qed.

Lemma faithful_refl (P V : Z) : (exists M, V = M * P) -> faithful P V V.
Proof. intros H. split; [exact H|]. intros T. split; intros; assumption. Qed.

Lemma faithful_opp (P V V' : Z) : faithful P V V' -> faithful P (- V) (- V').
Proof.
  intros [[M ->] H]. split; [exists (- M); lia|].
  intros T. destruct (H (- T)) as [H1 H2]. split; intros; lia.
Qed.

Lemma pos_iter_xO (m k : positive) : Z.pos (Pos.iter xO m k) = Z.pos m * 2 ^ Z.pos k.
Proof.
  induction k as [|k IH] using Pos.peano_ind.
  - simpl. lia.
  - rewrite Pos.iter_succ, Pos2Z.inj_xO, IH, Pos2Z.inj_succ, Z.pow_succ_r by lia. lia.
Qed.

Lemma binary_round_faithful (s : bool) (m : positive) (e : Z) :
  let d := Z.pos (digits2_pos m) in
  - scale <= e -> - scale <= d + e - 53 -> d + e <= 1023 ->
  exists m' e',
    binary_round Binary64.prec Binary64.emax s m e = S754_finite s m' e'
    /\ d + e - 53 <= e'
    /\ faithful (2 ^ (d + e - 53 + scale)) (Z.pos m * 2 ^ (e + scale)) (Z.pos m' * 2 ^ (e' + scale)).
Proof.
  intros d Hlo Hlo' Hhi. unfold scale in *.
  assert (1 <= d) as Hd1 by (unfold d; lia).
  pose proof (digits2_bounds m) as [Hml Hmu]. fold d in Hml, Hmu.
  unfold binary_round. rewrite fexp_normal by (fold d; lia). fold d.
  unfold shl_align. replace (d + e - 53 - e) with (d - 53) by lia.
  destruct (Z.lt_trichotomy d 53) as [Hlt|[Heq|Hgt]].
  - (* fewer than 53 digits: the mantissa is shifted left, nothing is lost *)
    destruct (d - 53) as [|k|k] eqn:Hk; try lia.
    assert (Z.pos k = 53 - d) as Ek by lia.
    assert (Z.pos (Pos.iter xO m k) = Z.pos m * 2 ^ (53 - d)) as Em
      by (rewrite pos_iter_xO, Ek; reflexivity).
    assert (0 < 2 ^ (53 - d)) as Hp by (apply Z.pow_pos_nonneg; lia).
    assert (2 ^ (d - 1) * 2 ^ (53 - d) = 2 ^ 52) as E1
      by (rewrite <- Z.pow_add_r by lia; f_equal; lia).
    assert (2 ^ d * 2 ^ (53 - d) = 2 ^ 53) as E2
      by (rewrite <- Z.pow_add_r by lia; f_equal; lia).
    assert (Z.pos (digits2_pos (Pos.iter xO m k)) = 53) as Hd.
    { apply digits2_unique. rewrite Em. change (2 ^ (53 - 1)) with (2 ^ 52).
      rewrite <- E1, <- E2. split.
      - apply Z.mul_le_mono_nonneg_r; lia.
      - apply Z.mul_lt_mono_pos_r; lia. }
    rewrite round_aux_small by (rewrite ?Hd; lia).
    exists (Pos.iter xO m k), (d + e - 53). split; [reflexivity|]. split; [lia|].
    rewrite Em.
    assert (Z.pos m * 2 ^ (53 - d) * 2 ^ (d + e - 53 + 106) = Z.pos m * 2 ^ (e + 106)) as EV.
    { rewrite <- Z.mul_assoc, <- Z.pow_add_r by lia. do 2 f_equal. lia. }
    rewrite EV. apply faithful_refl. exists (Z.pos m * 2 ^ (53 - d)). symmetry. exact EV.
  - (* exactly 53 digits *)
    destruct (d - 53) as [|k|k] eqn:Hk; try lia.
    rewrite round_aux_small by (fold d; lia).
    exists m, e. split; [reflexivity|]. split; [lia|].
    apply faithful_refl. exists (Z.pos m). do 2 f_equal. lia.
  - (* more than 53 digits: rounding *)
    destruct (d - 53) as [|k|k] eqn:Hk; try lia.
    destruct (round_aux_big s m e) as (M & HM & Hq & Hex & Hres); try (fold d; lia).
    fold d in HM, Hq, Hex, Hres. rewrite Hk in HM, Hq, Hex, Hres.
    set (n := Z.pos k) in *. assert (n = d - 53) as En by lia.
    set (q := Z.pos m / 2 ^ n) in *.
    assert (0 < 2 ^ n) as Hpn by (apply Z.pow_pos_nonneg; lia).
    assert (0 < 2 ^ (e + 106)) as Hpe by (apply Z.pow_pos_nonneg; lia).
    assert (2 ^ (d + e - 53 + 106) = 2 ^ n * 2 ^ (e + 106)) as EP
      by (rewrite <- Z.pow_add_r by lia; f_equal; lia).
    assert (exists m' e',
               binary_round_aux Binary64.prec Binary64.emax s (Z.pos m) e loc_Exact = S754_finite s m' e'
               /\ d + e - 53 <= e'
               /\ Z.pos m' * 2 ^ (e' + 106) = M * 2 ^ (d + e - 53 + 106)) as (m' & e' & Er & He' & EV).
    { destruct Hres as [[HMlt Hr]|[HMeq Hr]].
      - exists (Z.to_pos M), (e + n). split; [exact Hr|]. split; [lia|].
        rewrite Z2Pos.id by lia. do 2 f_equal. lia.
      - exists (Z.to_pos (2 ^ 52)), (e + n + 1). split; [exact Hr|]. split; [lia|].
        rewrite Z2Pos.id by lia. rewrite HMeq.
        replace (e + n + 1 + 106) with (1 + (d + e - 53 + 106)) by lia.
        rewrite Z.pow_add_r by lia. change (2 ^ 53) with (2 ^ 52 * 2 ^ 1). lia. }
    exists m', e'. split; [exact Er|]. split; [exact He'|].
    rewrite EV. split; [exists M; reflexivity|].
    intros T. rewrite EP. split; intros HT.
    + assert (T * 2 ^ n <= Z.pos m) as HT'.
      { apply (Z.mul_le_mono_pos_r _ _ (2 ^ (e + 106))); lia. }
      assert (T <= q) by (apply Z.div_le_lower_bound; lia).
      apply Z.mul_le_mono_nonneg_r; lia.
    + assert (Z.pos m <= T * 2 ^ n) as HT'.
      { apply (Z.mul_le_mono_pos_r _ _ (2 ^ (e + 106))); lia. }
      assert (M <= T) as HMT.
      { destruct (Z.eq_dec (Z.pos m) (T * 2 ^ n)) as [Heq|Hne].
        - assert (Z.pos m mod 2 ^ n = 0) as Hz by (rewrite Heq; apply Z.mod_mul; lia).
          rewrite (Hex Hz). unfold q. rewrite Heq, Z.div_mul by lia. lia.
        - assert (q < T) by (apply Z.div_lt_upper_bound; lia). lia. }
      apply Z.mul_le_mono_nonneg_r; lia.
Qed.

Lemma binary_round_is_aux (s : bool) (m : positive) (e : Z) :
  53 <= Z.pos (digits2_pos m) -> -1074 <= Z.pos (digits2_pos m) + e - 53 ->
  binary_round Binary64.prec Binary64.emax s m e = binary_round_aux Binary64.prec Binary64.emax s (Z.pos m) e loc_Exact.
Proof.
  intros Hd Hlo. unfold binary_round. rewrite fexp_normal by exact Hlo.
  unfold shl_align.
  destruct (Z.pos (digits2_pos m) + e - 53 - e) as [|k|k] eqn:Hk; try lia; reflexivity.
Qed.

Lemma digits_le_of_bound (m : positive) (e B : Z) :
  - scale <= e -> Z.pos m * 2 ^ (e + scale) < 2 ^ (scale + B) -> Z.pos (digits2_pos m) + e <= B.
Proof.
  unfold scale. intros He Hb.
  pose proof (digits2_bounds m) as [Hml _].
  set (d := Z.pos (digits2_pos m)) in *.
  assert (1 <= d) by (unfold d; lia).
  assert (0 < 2 ^ (e + 106)) as Hp by (apply Z.pow_pos_nonneg; lia).
  assert (2 ^ (d - 1 + (e + 106)) <= Z.pos m * 2 ^ (e + 106)) as H1.
  { rewrite Z.pow_add_r by lia. apply Z.mul_le_mono_nonneg_r; lia. }
  destruct (Z.le_gt_cases (d + e) B) as [|Hgt]; [assumption|].
  assert (2 ^ (106 + B) <= 2 ^ (d - 1 + (e + 106))) by (apply Z.pow_le_mono_r; lia).
  lia.
Qed.

Lemma ulp_bounds (m : positive) (e : Z) :
  let j := Z.pos (digits2_pos m) + e - 53 + scale in
  - scale <= e -> 0 <= j ->
  2 ^ j * 2 ^ 52 <= Z.pos m * 2 ^ (e + scale) < 2 ^ j * 2 ^ 53.
Proof.
  intros j He Hj. unfold scale in *.
  pose proof (digits2_bounds m) as [Hml Hmu].
  set (d := Z.pos (digits2_pos m)) in *.
  assert (1 <= d) by (unfold d; lia).
  assert (0 < 2 ^ (e + 106)) as Hp by (apply Z.pow_pos_nonneg; lia).
  rewrite <- !Z.pow_add_r by lia.
  replace (j + 52) with (d - 1 + (e + 106)) by (unfold j; lia).
  replace (j + 53) with (d + (e + 106)) by (unfold j; lia).
  rewrite (Z.pow_add_r 2 (d - 1)), (Z.pow_add_r 2 d) by lia. split.
  - apply Z.mul_le_mono_nonneg_r; lia.
  - apply Z.mul_lt_mono_pos_r; lia.
Qed.

Lemma binary_round_rounded (s : bool) (m : positive) (e B : Z) :
  - scale <= e -> - scale <= Z.pos (digits2_pos m) + e - 53 ->
  Z.pos m * 2 ^ (e + scale) < 2 ^ (scale + B) -> B <= 1023 ->
  rounded ((if s then Z.neg m else Z.pos m) * 2 ^ (e + scale))
          (binary_round Binary64.prec Binary64.emax s m e).
Proof.
  intros He Hj Hb HB.
  pose proof (digits_le_of_bound m e B He Hb) as Hd.
  destruct (binary_round_faithful s m e He Hj ltac:(lia)) as (m' & e' & -> & He' & Hf).
  pose proof (ulp_bounds m e He ltac:(lia)) as Hu.
  assert (0 < 2 ^ (e + scale)) by (apply Z.pow_pos_nonneg; lia).
  right. exists (Z.pos (digits2_pos m) + e - 53 + scale).
  split; [lia|]. split; [|split].
  - destruct s.
    + replace (Z.abs (Z.neg m * 2 ^ (e + scale))) with (Z.pos m * 2 ^ (e + scale)) by lia.
      exact Hu.
    + rewrite Z.abs_eq by lia. exact Hu.
  - unfold fits. lia.
  - destruct s; [|exact Hf].
    apply faithful_opp in Hf. unfold sval.
    replace (Z.neg m * 2 ^ (e + scale)) with (- (Z.pos m * 2 ^ (e + scale))) by lia.
    replace (Z.neg m' * 2 ^ (e' + scale)) with (- (Z.pos m' * 2 ^ (e' + scale))) by lia.
    exact Hf.
Qed.

Lemma binary_normalize_rounded (A e B : Z) :
  -53 <= e -> Z.abs A * 2 ^ (e + scale) < 2 ^ (scale + B) -> B <= 1023 ->
  rounded (A * 2 ^ (e + scale)) (binary_normalize Binary64.prec Binary64.emax A e false).
Proof.
  intros He Hb HB. unfold binary_normalize.
  destruct A as [|m|m].
  - left. split; reflexivity.
  - apply (binary_round_rounded false m e B); try assumption; unfold scale; lia.
  - apply (binary_round_rounded true m e B); try assumption; unfold scale; lia.
Qed.

Lemma shl_align_fst (m : positive) (e e' : Z) :
  e' <= e -> Z.pos (fst (shl_align m e e')) = Z.pos m * 2 ^ (e - e').
Proof.
  intros H. unfold shl_align.
  destruct (e' - e) as [|k|k] eqn:Hk; try lia.
  - replace (e - e') with 0 by lia. simpl. lia.
  - simpl fst. rewrite pos_iter_xO. do 2 f_equal. lia.
Qed.

Lemma cond_Zopp_scaled (s : bool) (m : positive) (e ez : Z) :
  - scale <= ez <= e ->
  cond_Zopp s (Z.pos (fst (shl_align m e ez))) * 2 ^ (ez + scale)
  = sval (S754_finite s m e).
Proof.
  intros H. rewrite shl_align_fst by lia. unfold sval.
  assert (2 ^ (e - ez) * 2 ^ (ez + scale) = 2 ^ (e + scale)) as E
    by (rewrite <- Z.pow_add_r by lia; f_equal; lia).
  destruct s; unfold cond_Zopp; rewrite <- E; rewrite <- ?Pos2Z.opp_pos; ring.
Qed.

Lemma SFsub_rounded (sx sy : bool) (mx my : positive) (ex ey B : Z) :
  let fx := S754_finite sx mx ex in
  let fy := S754_finite sy my ey in
  -53 <= ex -> -53 <= ey ->
  Z.abs (sval fx) + Z.abs (sval fy) < 2 ^ (scale + B) -> B <= 1023 ->
  rounded (sval fx - sval fy) (SFsub Binary64.prec Binary64.emax fx fy).
Proof.
  intros fx fy Hx Hy Hb HB.
  set (ez := Z.min ex ey).
  assert (-53 <= ez) as Hez by (unfold ez; lia).
  assert (ez <= ex /\ ez <= ey) as [Hzx Hzy] by (unfold ez; lia).
  set (A := cond_Zopp sx (Z.pos (fst (shl_align mx ex ez)))
            - cond_Zopp sy (Z.pos (fst (shl_align my ey ez)))).
  assert (A * 2 ^ (ez + scale) = sval fx - sval fy) as EA.
  { unfold A. rewrite Z.mul_sub_distr_r.
    rewrite !cond_Zopp_scaled by (unfold scale; lia). reflexivity. }
  change (SFsub Binary64.prec Binary64.emax fx fy) with (binary_normalize Binary64.prec Binary64.emax A ez false).
  rewrite <- EA.
  apply (binary_normalize_rounded A ez B); [exact Hez| |exact HB].
  assert (0 < 2 ^ (ez + scale)) by (apply Z.pow_pos_nonneg; unfold scale; lia).
  replace (Z.abs A * 2 ^ (ez + scale)) with (Z.abs (A * 2 ^ (ez + scale))) by (rewrite Z.abs_mul; lia).
  rewrite EA. lia.
Qed.

Lemma SFmul_rounded (mx my : positive) (ex ey B : Z) :
  - scale <= ex + ey ->
  53 <= Z.pos (digits2_pos (mx * my)) ->
  Z.pos (mx * my) * 2 ^ (ex + ey + scale) < 2 ^ (scale + B) -> B <= 1023 ->
  rounded (Z.pos (mx * my) * 2 ^ (ex + ey + scale))
          (SFmul Binary64.prec Binary64.emax (S754_finite false mx ex) (S754_finite false my ey)).
Proof.
  intros He Hd Hb HB. unfold SFmul. simpl xorb.
  rewrite <- binary_round_is_aux by (unfold scale in *; lia).
  apply (binary_round_rounded false (mx * my) (ex + ey) B); try assumption.
  unfold scale in *. lia.
Qed.

Lemma faithful_exact (P V V' : Z) :
  faithful P V V' -> (exists T, V = T * P) -> V' = V.
Proof.
  intros [_ H] [T ->]. destruct (H T) as [H1 H2].
  specialize (H1 ltac:(lia)). specialize (H2 ltac:(lia)). lia.
Qed.

Lemma floor_sval (f : spec_float) :
  fits (- scale) f -> Binary64.floor f = Some (sval f / 2 ^ scale).
Proof.
  destruct f as [s|s| |s m e]; simpl fits; intros H; try contradiction.
  - reflexivity.
  - unfold Binary64.floor, sval. f_equal. unfold scale in *.
    set (n := if s then Z.neg m else Z.pos m).
    assert (0 < 2 ^ 106) by (apply Z.pow_pos_nonneg; lia).
    destruct (Z.leb_spec 0 e) as [He|He].
    + rewrite Z.shiftl_mul_pow2 by lia.
      rewrite Z.pow_add_r by lia.
      rewrite Z.mul_assoc, Z.div_mul by lia. reflexivity.
    + rewrite Z.shiftr_div_pow2 by lia.
      assert (2 ^ 106 = 2 ^ (- e) * 2 ^ (e + 106)) as E
        by (rewrite <- Z.pow_add_r by lia; f_equal; lia).
      rewrite E. rewrite Z.div_mul_cancel_r; [reflexivity| |].
      * apply Z.pow_nonzero; lia.
      * apply Z.pow_nonzero; lia.
Qed.

(** The outcome of a subtraction of two operands that are zero or finite
    with exponents from -53 up. *)
Lemma SFsub_fits (fx fy : spec_float) (B : Z) :
  fits (-53) fx -> fits (-53) fy ->
  Z.abs (sval fx) + Z.abs (sval fy) < 2 ^ (scale + B) -> B <= 1023 ->
  let V := sval fx - sval fy in
  let f := SFsub Binary64.prec Binary64.emax fx fy in
  (sval f = V /\ (fits (-53) f \/ (V = 0 /\ f = S754_zero false)))
  \/ exists j,
       0 <= j
       /\ 2 ^ j * 2 ^ 52 <= Z.abs V < 2 ^ j * 2 ^ 53
       /\ fits (j - scale) f
       /\ faithful (2 ^ j) V (sval f).
Proof.
  intros Hx Hy Hb HB V f. subst V f.
  destruct fx as [sx|sx| |sx mx ex]; simpl in Hx; try contradiction;
  destruct fy as [sy|sy| |sy my ey]; simpl in Hy; try contradiction.
  - left. split; [destruct sx, sy; reflexivity|]. left. destruct sx, sy; exact I.
  - left. split.
    + unfold SFsub, sval. destruct sy; simpl negb; rewrite <- ?Pos2Z.opp_pos; ring.
    + left. exact Hy.
  - left. split; [unfold SFsub; change (sval (S754_zero sy)) with 0; lia|]. left. exact Hx.
  - destruct (SFsub_rounded sx sy mx my ex ey B Hx Hy Hb HB) as [[HV Hf]|Hr].
    + left. rewrite Hf. split; [symmetry; exact HV|]. right. split; [exact HV|reflexivity].
    + right. exact Hr.
Qed.

Lemma digits_ge (m : positive) (k : Z) :
  2 ^ (k - 1) <= Z.pos m -> k <= Z.pos (digits2_pos m).
Proof.
  intros H. pose proof (digits2_bounds m) as [_ Hu].
  destruct (Z.le_gt_cases k (Z.pos (digits2_pos m))) as [|Hgt]; [assumption|].
  assert (2 ^ Z.pos (digits2_pos m) <= 2 ^ (k - 1)) by (apply Z.pow_le_mono_r; lia).
  lia.
Qed.

Lemma digits_le (m : positive) (k : Z) :
  Z.pos m < 2 ^ k -> Z.pos (digits2_pos m) <= k.
Proof.
  intros H. pose proof (digits2_bounds m) as [Hl _].
  destruct (Z.le_gt_cases (Z.pos (digits2_pos m)) k) as [|Hgt]; [assumption|].
  assert (2 ^ k <= 2 ^ (Z.pos (digits2_pos m) - 1)) by (apply Z.pow_le_mono_r; lia).
  lia.
Qed.

(** Integers below 2^53 convert exactly. *)
Lemma of_Z_exact (z : Z) :
  Z.abs z < 2 ^ 53 ->
  sval (Binary64.of_Z z) = z * 2 ^ scale
  /\ fits (-52) (Binary64.of_Z z)
  /\ (0 < z -> exists m e, Binary64.of_Z z = S754_finite false m e)
  /\ (z = 0 -> Binary64.of_Z z = S754_zero false).
Proof.
  intros Hz. unfold Binary64.of_Z, binary_normalize.
  destruct z as [|m|m].
  - repeat split; try reflexivity; lia.
  - pose proof (digits_le m 53 ltac:(lia)) as Hd.
    destruct (binary_round_faithful false m 0) as (m' & e' & E & He' & Hf);
      try (unfold scale; lia).
    rewrite E. replace (0 + scale) with scale in Hf by lia.
    assert (Z.pos m' * 2 ^ (e' + scale) = Z.pos m * 2 ^ scale) as EV.
    { apply (faithful_exact _ _ _ Hf).
      exists (Z.pos m * 2 ^ (53 - Z.pos (digits2_pos m))).
      rewrite <- Z.mul_assoc, <- Z.pow_add_r by (unfold scale; lia).
      do 2 f_equal. lia. }
    split; [exact EV|]. split; [simpl; lia|]. split; [|discriminate].
    intros _. exists m', e'. reflexivity.
  - pose proof (digits_le m 53 ltac:(lia)) as Hd.
    destruct (binary_round_faithful true m 0) as (m' & e' & E & He' & Hf);
      try (unfold scale; lia).
    rewrite E. replace (0 + scale) with scale in Hf by lia.
    assert (Z.pos m' * 2 ^ (e' + scale) = Z.pos m * 2 ^ scale) as EV.
    { apply (faithful_exact _ _ _ Hf).
      exists (Z.pos m * 2 ^ (53 - Z.pos (digits2_pos m))).
      rewrite <- Z.mul_assoc, <- Z.pow_add_r by (unfold scale; lia).
      do 2 f_equal. lia. }
    split; [unfold sval; lia|]. split; [simpl; lia|]. split; [lia|discriminate].
Qed.

Lemma near_refl (B V : Z) : 0 < B -> near B V V.
Proof. intros HB. split; [lia|]. intros N. split; intros; assumption. Qed.

Lemma pow2_lt_inv (a b : Z) : 0 <= b -> 2 ^ a < 2 ^ b -> a < b.
Proof. intros Hb H. apply (Z.pow_lt_mono_r_iff 2); [lia|exact Hb|exact H]. Qed.

Lemma faithful_near (j J V V' : Z) :
  0 <= j <= J -> J <= scale -> faithful (2 ^ j) V V' -> near (2 ^ J) V V'.
Proof.
  intros Hj HJ [[M EM] Hf].
  assert (0 < 2 ^ j) as Hp by (apply Z.pow_pos_nonneg; lia).
  assert (2 ^ j <= 2 ^ J) as HjJ by (apply Z.pow_le_mono_r; lia).
  split.
  - pose proof (Z.div_mod V (2 ^ j) ltac:(lia)) as Ed.
    pose proof (Z.mod_pos_bound V (2 ^ j) Hp) as Hm.
    set (T := V / 2 ^ j) in *. set (rho := V mod 2 ^ j) in *.
    destruct (Hf T) as [H1 H2]. destruct (Hf (T + 1)) as [_ H3].
    specialize (H1 ltac:(lia)). specialize (H3 ltac:(lia)).
    destruct (Z.eq_dec rho 0) as [Hz|Hnz].
    + specialize (H2 ltac:(lia)). lia.
    + lia.
  - intros N.
    assert (N * 2 ^ scale = N * 2 ^ (scale - j) * 2 ^ j) as E.
    { rewrite <- Z.mul_assoc, <- Z.pow_add_r by lia. do 2 f_equal. lia. }
    rewrite E. apply Hf.
Qed.

Lemma floor_arith (x r Y Zv : Z) :
  Z.abs x <= 2 ^ 33 -> 0 <= r < 2 ^ 32 ->
  near (2 ^ 85) (5404319552844595 * r * 2 ^ 53) Y ->
  near (2 ^ 87) (x * 2 ^ scale - Y) Zv ->
  Zv / 2 ^ scale = (5 * x - 3 * r) / 5.
Proof.
  unfold near, scale. intros Hx Hr [HY HYm] [HZ HZm].
  change (2 ^ 33) with 8589934592 in *.
  change (2 ^ 32) with 4294967296 in *.
  change (2 ^ 85) with 38685626227668133590597632 in *.
  change (2 ^ 87) with 154742504910672534362390528 in *.
  change (2 ^ 53) with 9007199254740992 in *.
  change (2 ^ 106) with 81129638414606681695789005144064 in *.
  pose proof (Z.div_mod (5 * x - 3 * r) 5 ltac:(lia)) as Ed.
  pose proof (Z.mod_pos_bound (5 * x - 3 * r) 5 ltac:(lia)) as Hm.
  set (N0 := (5 * x - 3 * r) / 5) in *. set (rho := (5 * x - 3 * r) mod 5) in *.
  assert (N0 * 81129638414606681695789005144064 <= Zv
          < (N0 + 1) * 81129638414606681695789005144064) as Hb.
  { destruct (Z.eq_dec rho 0) as [Hz|Hnz].
    - pose proof (Z.div_mod r 5 ltac:(lia)) as Er.
      pose proof (Z.mod_pos_bound r 5 ltac:(lia)) as Hrm.
      set (k := r / 5) in *. set (rr := r mod 5) in *.
      assert (rr = 0) as Hrr by lia.
      destruct (HYm (3 * k)) as [_ HY2]. specialize (HY2 ltac:(lia)).
      destruct (HZm N0) as [HZ1 _]. specialize (HZ1 ltac:(lia)).
      lia.
    - lia. }
  symmetry. apply (Z.div_unique_pos Zv _ N0 (Zv - N0 * 81129638414606681695789005144064)); lia.
Qed.

Lemma pow2_le_inv (a b : Z) : 0 <= b -> 2 ^ a <= 2 ^ b -> a <= b.
Proof. intros Hb H. apply (Z.pow_le_mono_r_iff 2); [lia|exact Hb|exact H]. Qed.

Lemma fits_weaken (lo lo' : Z) (f : spec_float) : lo' <= lo -> fits lo f -> fits lo' f.
Proof. destruct f; simpl; intros; try assumption; lia. Qed.

(** Subtracting two converted integers is exact. *)
Lemma int_sub_exact (s t : Z) :
  Z.abs s <= 2 ^ 32 -> Z.abs t <= 2 ^ 32 ->
  let f := SFsub Binary64.prec Binary64.emax (Binary64.of_Z s) (Binary64.of_Z t) in
  sval f = (s - t) * 2 ^ scale /\ fits (-53) f.
Proof.
  intros Hs Ht f.
  change (2 ^ 32) with 4294967296 in *.
  assert (2 ^ 53 = 9007199254740992) as E53 by reflexivity.
  destruct (of_Z_exact s ltac:(lia)) as (Vs & Fs & _ & _).
  destruct (of_Z_exact t ltac:(lia)) as (Vt & Ft & _ & _).
  assert (2 ^ scale = 81129638414606681695789005144064) as EK by reflexivity.
  destruct (SFsub_fits (Binary64.of_Z s) (Binary64.of_Z t) 54) as [[HV Hf]|(j & Hj & Hu & Hfit & Hfa)].
  - apply (fits_weaken (-52)); [lia|exact Fs].
  - apply (fits_weaken (-52)); [lia|exact Ft].
  - rewrite Vs, Vt. change (2 ^ (scale + 54)) with (2 ^ scale * 2 ^ 54).
    rewrite !Z.abs_mul, EK. change (2 ^ 54) with 18014398509481984. lia.
  - lia.
  - fold f in HV, Hf. rewrite Vs, Vt in HV. split; [rewrite HV; ring|].
    destruct Hf as [Hf|[_ ->]]; [exact Hf|exact I].
  - fold f in Hfit, Hfa. rewrite Vs, Vt in Hu, Hfa.
    replace (s * 2 ^ scale - t * 2 ^ scale) with ((s - t) * 2 ^ scale) in Hu, Hfa by ring.
    assert (0 < 2 ^ j) as Hpj by (apply Z.pow_pos_nonneg; lia).
    rewrite Z.abs_mul in Hu. rewrite (Z.abs_eq (2 ^ scale)) in Hu by (rewrite EK; lia).
    assert (1 <= Z.abs (s - t) <= 2 ^ 33) as Hx.
    { change (2 ^ 33) with 8589934592. split; [|lia].
      destruct (Z.eq_dec (s - t) 0) as [E|]; [|lia].
      rewrite E in Hu. simpl in Hu. lia. }
    assert (53 <= j <= scale) as Hjr.
    { split.
      - assert (2 ^ scale < 2 ^ (j + 53)) as H1.
        { rewrite Z.pow_add_r by lia. nia. }
        apply pow2_lt_inv in H1; unfold scale in *; lia.
      - assert (2 ^ (j + 52) <= 2 ^ (scale + 33)) as H1.
        { rewrite !Z.pow_add_r by (unfold scale; lia). nia. }
        apply pow2_le_inv in H1; unfold scale in *; lia. }
    split.
    + apply (faithful_exact _ _ _ Hfa).
      exists ((s - t) * 2 ^ (scale - j)).
      rewrite <- Z.mul_assoc, <- Z.pow_add_r by lia. do 2 f_equal. lia.
    + apply (fits_weaken (j - scale)); [unfold scale; lia|exact Hfit].
Qed.

(** The product 0.6 * rtt is rounded once. *)
Lemma mul_0_6_near (r : Z) :
  0 <= r < 2 ^ 32 ->
  let f := SFmul Binary64.prec Binary64.emax Binary64.lit_0_6 (Binary64.of_Z r) in
  fits (-53) f /\ near (2 ^ 85) (5404319552844595 * r * 2 ^ 53) (sval f).
Proof.
  intros Hr f. change (2 ^ 32) with 4294967296 in *.
  assert (2 ^ scale = 81129638414606681695789005144064) as EK by reflexivity.
  assert (2 ^ 53 = 9007199254740992) as E53 by reflexivity.
  destruct (of_Z_exact r ltac:(rewrite E53; lia)) as (Vr & Fr & Hpos & Hzero).
  destruct (Z.eq_dec r 0) as [->|Hnz].
  - subst f. rewrite (Hzero eq_refl). simpl. split; [exact I|].
    apply near_refl. reflexivity.
  - destruct (Hpos ltac:(lia)) as (m & e & Em).
    subst f. rewrite Em in *. unfold Binary64.lit_0_6. simpl in Fr.
    unfold sval in Vr.
    assert (0 < 2 ^ (e + 53)) as Hp by (apply Z.pow_pos_nonneg; lia).
    assert (2 ^ (e + scale) = 2 ^ (e + 53) * 2 ^ 53) as Ee
      by (rewrite <- Z.pow_add_r by lia; f_equal; unfold scale; lia).
    assert (Z.pos m * 2 ^ (e + 53) = r * 2 ^ 53) as Er.
    { apply (Z.mul_cancel_r _ _ (2 ^ 53)); [rewrite E53; lia|].
      rewrite <- Z.mul_assoc, <- Ee, Vr.
      change (2 ^ scale) with (2 ^ 53 * 2 ^ 53). ring. }
    assert (Z.pos (5404319552844595 * m) * 2 ^ (-53 + e + scale)
            = 5404319552844595 * r * 2 ^ 53) as EV.
    { rewrite Pos2Z.inj_mul. replace (-53 + e + scale) with (e + 53) by (unfold scale; lia).
      rewrite <- Z.mul_assoc, Er. ring. }
    destruct (SFmul_rounded 5404319552844595 m (-53) e 32)
      as [[HV _]|(j & Hj & Hu & Hfit & Hfa)].
    + unfold scale; lia.
    + apply digits_ge. rewrite Pos2Z.inj_mul. change (2 ^ (53 - 1)) with 4503599627370496.
      nia.
    + rewrite EV. change (2 ^ (scale + 32)) with 348449143727040986586495598010130648530944.
      rewrite E53. nia.
    + lia.
    + rewrite EV in HV. rewrite E53 in HV. nia.
    + rewrite EV in Hu, Hfa.
      assert (2 ^ 105 <= 5404319552844595 * r * 2 ^ 53 < 2 ^ 138) as Hrange.
      { change (2 ^ 105) with 40564819207303340847894502572032.
        change (2 ^ 138) with 348449143727040986586495598010130648530944.
        rewrite E53. nia. }
      rewrite Z.abs_eq in Hu by lia.
      assert (0 < 2 ^ j) as Hpj by (apply Z.pow_pos_nonneg; lia).
      assert (53 <= j <= 85) as Hjr.
      { split.
        - assert (2 ^ 105 < 2 ^ (j + 53)) as H1 by (rewrite Z.pow_add_r by lia; lia).
          apply pow2_lt_inv in H1; lia.
        - assert (2 ^ (j + 52) < 2 ^ 138) as H1 by (rewrite Z.pow_add_r by lia; lia).
          apply pow2_lt_inv in H1; lia. }
      split.
      * apply (fits_weaken (j - scale)); [unfold scale; lia|exact Hfit].
      * apply (faithful_near j); [lia|unfold scale; lia|exact Hfa].
Qed.

(** In binary64, on 32-bit operands, [Math.Binary64.floor(s - t - 0.6 * r)] is the
    Binary64.floor of the exact rational [s - t - 3 r / 5]. *)
Theorem floor_delta_exact (s t r : Z) :
  Z.abs s <= 2 ^ 32 -> Z.abs t <= 2 ^ 32 -> 0 <= r < 2 ^ 32 ->
  floor_delta s t r = Some ((5 * (s - t) - 3 * r) / 5).
Proof.
  intros Hs Ht Hr. unfold floor_delta, Binary64.sub, Binary64.mul.
  destruct (int_sub_exact s t Hs Ht) as [Vx Fx].
  destruct (mul_0_6_near r Hr) as [Fy Ny].
  set (fx := SFsub Binary64.prec Binary64.emax (Binary64.of_Z s) (Binary64.of_Z t)) in *.
  set (fy := SFmul Binary64.prec Binary64.emax Binary64.lit_0_6 (Binary64.of_Z r)) in *.
  assert (2 ^ scale = 81129638414606681695789005144064) as EK by reflexivity.
  assert (Z.abs (s - t) <= 2 ^ 33) as Hx
    by (change (2 ^ 32) with 4294967296 in *; change (2 ^ 33) with 8589934592; lia).
  assert (Z.abs (sval fx) + Z.abs (sval fy) < 2 ^ 140) as Hb.
  { destruct Ny as [Ny _]. rewrite Vx, Z.abs_mul, EK.
    change (2 ^ 32) with 4294967296 in *. change (2 ^ 33) with 8589934592 in *.
    change (2 ^ 85) with 38685626227668133590597632 in *.
    change (2 ^ 53) with 9007199254740992 in *.
    change (2 ^ 140) with 1393796574908163946345982392040522594123776. lia. }
  assert (fits (- scale) (SFsub Binary64.prec Binary64.emax fx fy)
          /\ near (2 ^ 87) (sval fx - sval fy) (sval (SFsub Binary64.prec Binary64.emax fx fy))) as [Fz Nz].
  { destruct (SFsub_fits fx fy 34 Fx Fy) as [[HV Hf]|(j & Hj & Hu & Hfit & Hfa)].
    - exact Hb.
    - lia.
    - split.
      + destruct Hf as [Hf|[_ ->]]; [|exact I].
        apply (fits_weaken (-53)); [unfold scale; lia|exact Hf].
      + rewrite HV. apply near_refl. reflexivity.
    - assert (0 < 2 ^ j) as Hpj by (apply Z.pow_pos_nonneg; lia).
      assert (j <= 87) as Hj87.
      { assert (2 ^ (j + 52) < 2 ^ 140) as H1 by (rewrite Z.pow_add_r by lia; lia).
        apply pow2_lt_inv in H1; lia. }
      split.
      + apply (fits_weaken (j - scale)); [lia|exact Hfit].
      + apply (faithful_near j); [lia|unfold scale; lia|exact Hfa]. }
  rewrite (floor_sval _ Fz). f_equal.
  apply (floor_arith (s - t) r (sval fy)); [exact Hx|exact Hr|exact Ny|].
  rewrite <- Vx. exact Nz.
Qed.

(** ** The protocol *)

Ltac unfold_M :=
  unfold exec, emit, mbind, M_bind, mret, M_ret, gets, modify, throw, unmodelled.

Section ProtocolFacts.

Variable JSON_parse : string -> option json.
Variable JSON_stringify : json -> string.

Local Abbreviation send := (Protocol.send JSON_stringify).
Local Abbreviation onMessage := (Protocol.onMessage JSON_parse).
Local Abbreviation perform := (Protocol.perform JSON_parse JSON_stringify).
Local Abbreviation run := (Protocol.run JSON_parse JSON_stringify).

(** *** Synchronised time *)

Lemma remoteTime_attached (w : World) (sim : Simulation) :
  simulation w = Some sim ->
  Protocol.remoteTime w
  = (Normal (asInt32 (getTimeMillis sim + serverTimeDelta w)), w).
Proof. intros H. unfold Protocol.remoteTime. unfold_M. rewrite H. reflexivity. Qed.

Lemma remoteTime_detached (w : World) :
  simulation w = None -> Protocol.remoteTime w = (Normal 0, w).
Proof. intros H. unfold Protocol.remoteTime. unfold_M. rewrite H. reflexivity. Qed.






(** Beyond 2^31 ms the translation is still congruent but may leave
    [0, 2^32). *)
Example elapsed_beyond_half_range :
  wrapNegative (asInt32 (two32 + two31)
                - wrapNegative (asInt32 (two32 - 1 + 0) - 0)) = - two31 + 1.
Proof. reflexivity. Qed.




(** *** Stamping outbound packets *)



(** *** Clock synchronisation *)

Lemma onClockSyncReply_integers (w : World) (t0 serverTime d : Z) (rest : list json) :
  floor_delta serverTime t0 (wrapNegative (asInt32 (Date_now w) - t0)) = Some d ->
  Protocol.onClockSyncReply (JInt t0 :: JInt serverTime :: rest) w
  = (Normal tt,
     set_serverTimeDelta (wrapNegative d)
       (set_roundTripTime (wrapNegative (asInt32 (Date_now w) - t0)) w)).
Proof.
  intros Hd. unfold Protocol.onClockSyncReply, integer_at. unfold_M. simpl.
  unfold wrapNegative, Protocol.asInt32 in *. rewrite Hd. simpl.
  destruct (d <? 0); reflexivity.
Qed.

Lemma rtt_range (now t0 : Z) :
  - two31 <= t0 < two31 -> 0 <= wrapNegative (asInt32 now - t0) < two32.
Proof.
  intros Ht. pose proof (asInt32_range now) as Hn.
  apply wrapNegative_range. unfold two31, two32 in *. lia.
Qed.

Lemma onClockSyncReply_32bit (w : World) (t0 serverTime : Z) (rest : list json) :
  - two31 <= t0 < two31 -> - two32 <= serverTime <= two32 ->
  let rtt := wrapNegative (asInt32 (Date_now w) - t0) in
  Protocol.onClockSyncReply (JInt t0 :: JInt serverTime :: rest) w
  = (Normal tt,
     set_serverTimeDelta (wrapNegative ((5 * (serverTime - t0) - 3 * rtt) / 5))
       (set_roundTripTime rtt w)).
Proof.
  intros Ht Hs rtt. apply onClockSyncReply_integers. fold rtt.
  pose proof (rtt_range (Date_now w) t0 Ht) as Hr. fold rtt in Hr.
  apply floor_delta_exact; unfold two31, two32 in *;
    change (2 ^ 32) with 4294967296; lia.
Qed.

(** C1. A clock-sync reply [(t0, serverTime)] of 32-bit timestamps, read
    when the page clock shows [now], stores [rtt = asInt32(now) - t0], plus
    2^32 if negative, and [serverTimeDelta = floor(serverTime - t0 - 0.6 * rtt)],
    plus 2^32 if negative: the binary64 evaluation of the floor is the floor
    of the exact value [(5 * (serverTime - t0) - 3 * rtt) / 5].  A probe sent
    at 1000 and answered with server time 5000 at 1200 stores 200 and 3880. *)
Theorem clock_sync_reply_stores_estimate
    (w : World) (t0 serverTime : Z) (rest : list json) :
  - two31 <= t0 < two31 -> - two32 <= serverTime <= two32 ->
  let rtt := wrapNegative (asInt32 (Date_now w) - t0) in
  exists w',
    Protocol.onClockSyncReply (JInt t0 :: JInt serverTime :: rest) w = (Normal tt, w')
    /\ roundTripTime w' = rtt
    /\ serverTimeDelta w' = wrapNegative ((5 * (serverTime - t0) - 3 * rtt) / 5)
    /\ (Date_now w = 1200 -> t0 = 1000 -> serverTime = 5000 ->
        roundTripTime w' = 200 /\ serverTimeDelta w' = 3880).
Proof.
  intros Ht Hs rtt. eexists.
  split; [apply onClockSyncReply_32bit; assumption|].
  split; [reflexivity|]. split; [reflexivity|].
  intros Hnow -> ->. simpl. rewrite Hnow. split; reflexivity.
Qed.

(** The same through the dispatcher: a clock-sync frame reaching an
    instance whose only handler for the tag is its own. *)
Lemma clock_sync_frame_updates_estimate
    (w : World) (data : string) (t0 serverTime : Z) :
  JSON_parse data
  = Some (JArr [JInt S2CPacketType.CLOCK_SYNC_REPLY; JInt t0; JInt serverTime]) ->
  handlers w !! S2CPacketType.CLOCK_SYNC_REPLY = Some [OnClockSyncReply] ->
  - two31 <= t0 < two31 -> - two32 <= serverTime <= two32 ->
  let rtt := wrapNegative (asInt32 (Date_now w) - t0) in
  onMessage data w
  = (Normal tt,
     set_serverTimeDelta (wrapNegative ((5 * (serverTime - t0) - 3 * rtt) / 5))
       (set_roundTripTime rtt
          (set_effects
             (effects w ++ [Invoke OnClockSyncReply [JInt t0; JInt serverTime]]) w))).
Proof.
  intros Hp Hh Ht Hs rtt.
  unfold Protocol.onMessage. rewrite Hp. unfold mbind at 1. unfold M_bind. simpl index0.
  unfold mret at 1. unfold M_ret. unfold mbind at 1. unfold M_bind, gets.
  unfold handlers_get, JInt. rewrite Hh. unfold mbind at 1. unfold M_bind. simpl slice1.
  unfold mret at 1. unfold M_ret. simpl forEach.
  unfold mbind at 1. unfold M_bind. unfold Protocol.invoke.
  unfold mbind at 1. unfold M_bind. unfold emit at 1. unfold modify at 1.
  rewrite (onClockSyncReply_32bit _ t0 serverTime [] Ht Hs). reflexivity.
Qed.

(** C2, amended.  For 32-bit [t0] and [serverTime] the stored offset lies
    in [0, 2^32) whenever [serverTime - t0 - 0.6 * rtt] is at least -2^32 and
    below 2^32. *)
Theorem stored_delta_in_range
    (w : World) (t0 serverTime : Z) (rest : list json) :
  - two31 <= t0 < two31 -> - two32 <= serverTime <= two32 ->
  let rtt := wrapNegative (asInt32 (Date_now w) - t0) in
  - 5 * two32 <= 5 * (serverTime - t0) - 3 * rtt < 5 * two32 ->
  0 <= serverTimeDelta
         (exec (Protocol.onClockSyncReply (JInt t0 :: JInt serverTime :: rest)) w)
    < two32.
Proof.
  intros Ht Hs rtt Hr. unfold exec.
  rewrite (onClockSyncReply_32bit w t0 serverTime rest Ht Hs). simpl.
  apply wrapNegative_range. fold rtt. unfold two32 in *.
  Z.div_mod_to_equations. lia.
Qed.

(** Outside that band the single correction is not enough. *)
Lemma stored_delta_out_of_range
    (w : World) (t0 serverTime : Z) (rest : list json) :
  - two31 <= t0 < two31 -> - two32 <= serverTime <= two32 ->
  let rtt := wrapNegative (asInt32 (Date_now w) - t0) in
  5 * (serverTime - t0) - 3 * rtt < - 5 * two32 ->
  serverTimeDelta
    (exec (Protocol.onClockSyncReply (JInt t0 :: JInt serverTime :: rest)) w) < 0.
Proof.
  intros Ht Hs rtt Hr. unfold exec.
  rewrite (onClockSyncReply_32bit w t0 serverTime rest Ht Hs). simpl. fold rtt.
  match goal with |- wrapNegative ?v < 0 => destruct (wrapNegative_cases v) as [[? ->]|[? ->]] end;
    unfold two32 in *; Z.div_mod_to_equations; lia.
Qed.

(** *** The outbound queue *)

Lemma send_queues (w : World) (data : json) :
  readyState w <> OPEN ->
  send data w
  = (Normal tt, set_packetQueue (packetQueue w ++ [JSON_stringify data]) w).
Proof.
  intros H. unfold Protocol.send. unfold_M.
  rewrite bool_decide_eq_true_2 by exact H. reflexivity.
Qed.

Lemma send_transmits (w : World) (data : json) :
  readyState w = OPEN ->
  send data w
  = (Normal tt, set_effects (effects w ++ [SocketSend (JSON_stringify data)]) w).
Proof.
  intros H. unfold Protocol.send, socket_send. unfold_M.
  rewrite bool_decide_eq_false_2 by (intros Hne; apply Hne; exact H).
  rewrite H. reflexivity.
Qed.

Lemma sends_queue (ms : list json) (w : World) :
  readyState w <> OPEN ->
  forEach send ms w
  = (Normal tt, set_packetQueue (packetQueue w ++ map JSON_stringify ms) w).
Proof.
  revert w. induction ms as [|m ms IH]; intros w H.
  - destruct w. simpl. unfold mret, M_ret, set_packetQueue. simpl.
    rewrite app_nil_r. reflexivity.
  - simpl. unfold mbind, M_bind. rewrite (send_queues w m H).
    rewrite IH by exact H. unfold set_packetQueue. simpl.
    rewrite <- app_assoc. reflexivity.
Qed.

Lemma sends_transmit (ms : list json) (w : World) :
  readyState w = OPEN ->
  forEach send ms w
  = (Normal tt,
     set_effects (effects w ++ map (fun m => SocketSend (JSON_stringify m)) ms) w).
Proof.
  revert w. induction ms as [|m ms IH]; intros w H.
  - destruct w. simpl. unfold mret, M_ret, set_effects. simpl.
    rewrite app_nil_r. reflexivity.
  - simpl. unfold mbind, M_bind. rewrite (send_transmits w m H).
    rewrite IH by exact H. unfold set_effects. simpl.
    rewrite <- app_assoc. reflexivity.
Qed.

Lemma socket_send_open (packet : string) (w : World) :
  readyState w = OPEN ->
  socket_send packet w = (Normal tt, set_effects (effects w ++ [SocketSend packet]) w).
Proof. intros H. unfold socket_send. unfold_M. rewrite H. reflexivity. Qed.

Lemma drain_open (queue : list string) (w : World) :
  readyState w = OPEN ->
  forEach socket_send queue w
  = (Normal tt, set_effects (effects w ++ map SocketSend queue) w).
Proof.
  revert w. induction queue as [|p queue IH]; intros w H.
  - destruct w. simpl. unfold mret, M_ret, set_effects. simpl.
    rewrite app_nil_r. reflexivity.
  - simpl. unfold mbind, M_bind. rewrite (socket_send_open p w H).
    rewrite IH by exact H. unfold set_effects. simpl.
    rewrite <- app_assoc. reflexivity.
Qed.

Lemma socket_opened (w : World) :
  perform Protocol.SocketOpened w
  = (Normal tt,
     set_packetQueue []
       (set_effects (effects w ++ map SocketSend (packetQueue w))
          (set_readyState OPEN w))).
Proof.
  unfold Protocol.perform, Protocol.onOpen. unfold_M. simpl.
  rewrite drain_open by reflexivity. reflexivity.
Qed.

Lemma transmitted_app (w : World) (es : list Effect) :
  Protocol.transmitted (set_effects (effects w ++ es) w)
  = Protocol.transmitted w
    ++ omap (fun e => match e with SocketSend p => Some p | _ => None end) es.
Proof. unfold Protocol.transmitted. simpl. apply omap_app. Qed.

Lemma omap_SocketSend (queue : list string) :
  omap (fun e => match e with SocketSend p => Some p | _ => None end)
       (map SocketSend queue) = queue.
Proof. induction queue as [|p queue IH]; [reflexivity|]. simpl. f_equal. exact IH. Qed.

(** C3. Messages sent while the socket is not OPEN go to the queue and
    nothing reaches the transport; when the socket opens, the queue is put on
    the transport front to back, each frame once, and emptied; every send
    after that, the socket being open, goes straight to the transport. *)
Theorem queued_sends_are_delivered_in_order (w : World) (before after : list json) :
  readyState w <> OPEN ->
  exists w1 w2 w3,
    forEach send before w = (Normal tt, w1)
    /\ perform Protocol.SocketOpened w1 = (Normal tt, w2)
    /\ forEach send after w2 = (Normal tt, w3)
    /\ packetQueue w1 = packetQueue w ++ map JSON_stringify before
    /\ Protocol.transmitted w1 = Protocol.transmitted w
    /\ Protocol.transmitted w2
       = Protocol.transmitted w ++ packetQueue w ++ map JSON_stringify before
    /\ packetQueue w2 = []
    /\ Protocol.transmitted w3
       = Protocol.transmitted w2 ++ map JSON_stringify after
    /\ packetQueue w3 = [].
Proof.
  intros H. do 3 eexists.
  split; [apply sends_queue; exact H|].
  split; [apply socket_opened|].
  split; [apply sends_transmit; reflexivity|].
  split; [reflexivity|]. split; [reflexivity|].
  split.
  { unfold Protocol.transmitted. simpl. rewrite omap_app, omap_SocketSend.
    reflexivity. }
  split; [reflexivity|].
  split; [|reflexivity].
  unfold Protocol.transmitted. simpl. rewrite !omap_app. f_equal.
  rewrite <- (map_map JSON_stringify SocketSend). apply omap_SocketSend.
Qed.

(** Should the socket report [open] again, nothing is sent twice. *)
Lemma second_open_sends_nothing (w : World) :
  Protocol.transmitted (exec (perform Protocol.SocketOpened)
                             (exec (perform Protocol.SocketOpened) w))
  = Protocol.transmitted (exec (perform Protocol.SocketOpened) w).
Proof.
  unfold exec. rewrite !socket_opened. unfold Protocol.transmitted. simpl.
  rewrite app_nil_r. reflexivity.
Qed.


(** *** What a computation leaves alone *)

Lemma keeps_ret {A B} (f : World -> B) (a : A) : keeps f (mret a).
Proof. intros w. reflexivity. Qed.

Lemma keeps_gets {A B} (f : World -> B) (g : World -> A) : keeps f (gets g).
Proof. intros w. reflexivity. Qed.

Lemma keeps_throw {A B} (f : World -> B) (e : JsError) : keeps f (@throw A e).
Proof. intros w. reflexivity. Qed.

Lemma keeps_unmodelled {A B} (f : World -> B) : keeps f (@unmodelled A).
Proof. intros w. reflexivity. Qed.

Lemma keeps_modify {B} (f : World -> B) (g : World -> World) :
  (forall w, f (g w) = f w) -> keeps f (modify g).
Proof. intros H w. apply H. Qed.

Lemma keeps_bind {A A' B} (f : World -> B) (c : M A) (k : A -> M A') :
  keeps f c -> (forall a, keeps f (k a)) -> keeps f (c ≫= k).
Proof.
  intros Hc Hk w. unfold mbind, M_bind.
  specialize (Hc w). destruct (c w) as [[a| |] w']; simpl in *.
  - rewrite Hk. exact Hc.
  - exact Hc.
  - exact Hc.
Qed.

Lemma keeps_forEach {A B} (f : World -> B) (g : A -> M unit) (l : list A) :
  (forall a, keeps f (g a)) -> keeps f (forEach g l).
Proof.
  intros Hg. induction l as [|a l IH]; simpl.
  - apply keeps_ret.
  - apply keeps_bind; [apply Hg|intros _; exact IH].
Qed.

Lemma keeps_notified_emit (e : Effect) :
  is_Notify e = false -> keeps Protocol.notified (emit e).
Proof.
  intros He w. unfold emit, modify, Protocol.notified. simpl.
  rewrite omap_app. destruct e; try discriminate; simpl; apply app_nil_r.
Qed.

Ltac keeps_step :=
  first
    [ apply keeps_ret | apply keeps_gets | apply keeps_throw
    | apply keeps_unmodelled
    | apply keeps_modify; intros; reflexivity
    | apply keeps_notified_emit; reflexivity
    | apply keeps_forEach; intros
    | apply keeps_bind; [|intros]
    | match goal with
      | |- keeps _ (match ?x with _ => _ end) => destruct x
      | |- keeps _ (if ?b then _ else _) => destruct b
      end ].

Ltac keeps_auto := cbv zeta; repeat keeps_step.

Lemma keeps_send {B} (f : World -> B) (data : json) :
  (forall v w, f (set_packetQueue v w) = f w) ->
  keeps f (emit (SocketSend (JSON_stringify data))) ->
  keeps f (send data).
Proof.
  intros Hq He. unfold Protocol.send. cbv zeta.
  apply keeps_bind; [apply keeps_gets|]. intros rs.
  destruct (bool_decide (rs ≠ OPEN)).
  - apply keeps_modify. intros w. apply Hq.
  - unfold socket_send. apply keeps_bind; [apply keeps_gets|].
    intros [ | | | ]; [apply keeps_throw|exact He|apply keeps_ret|apply keeps_ret].
Qed.

Lemma keeps_emit_eventHandler (e : Effect) : keeps eventHandler (emit e).
Proof. intros w. reflexivity. Qed.

Lemma keeps_remoteTime {B} (f : World -> B) : keeps f Protocol.remoteTime.
Proof. unfold Protocol.remoteTime. keeps_auto. Qed.

Lemma keeps_onClockSyncReply_eventHandler (packet : list json) :
  keeps eventHandler (Protocol.onClockSyncReply packet).
Proof. unfold Protocol.onClockSyncReply, integer_at. keeps_auto. Qed.

Lemma keeps_onClockSyncReply_notified (packet : list json) :
  keeps Protocol.notified (Protocol.onClockSyncReply packet).
Proof. unfold Protocol.onClockSyncReply, integer_at. keeps_auto. Qed.

Lemma keeps_onMessage_eventHandler (data : string) :
  keeps eventHandler (onMessage data).
Proof.
  unfold Protocol.onMessage, Protocol.invoke, index0, slice1,
    console_error, console_warn.
  destruct (JSON_parse data) as [obj|].
  - apply keeps_bind; [destruct obj; keeps_auto|]. intros tag.
    apply keeps_bind; [apply keeps_gets|]. intros hs.
    destruct (handlers_get hs tag).
    + apply keeps_bind; [destruct obj; keeps_auto|]. intros sliced.
      apply keeps_forEach. intros h.
      apply keeps_bind; [apply keeps_emit_eventHandler|]. intros _.
      destruct h; [apply keeps_onClockSyncReply_eventHandler|apply keeps_ret].
    + apply keeps_emit_eventHandler.
  - apply keeps_emit_eventHandler.
Qed.

Lemma keeps_onMessage_notified (data : string) :
  keeps Protocol.notified (onMessage data).
Proof.
  unfold Protocol.onMessage, Protocol.invoke, index0, slice1,
    console_error, console_warn.
  destruct (JSON_parse data) as [obj|].
  - apply keeps_bind; [destruct obj; keeps_auto|]. intros tag.
    apply keeps_bind; [apply keeps_gets|]. intros hs.
    destruct (handlers_get hs tag).
    + apply keeps_bind; [destruct obj; keeps_auto|]. intros sliced.
      apply keeps_forEach. intros h.
      apply keeps_bind; [apply keeps_notified_emit; reflexivity|]. intros _.
      destruct h; [apply keeps_onClockSyncReply_notified|apply keeps_ret].
    + apply keeps_notified_emit. reflexivity.
  - apply keeps_notified_emit. reflexivity.
Qed.


Ltac keeps_protocol :=
  unfold Protocol.perform, Protocol.registerEventHandler,
    Protocol.registerPacketHandler, Protocol.login, Protocol.startGame,
    Protocol.sendPosition, Protocol.sendDeath, Protocol.sendChat,
    Protocol.sendShipChange, Protocol.sendPrizeCollected,
    Protocol.sendSetPresence, Protocol.sendFlagCaptured, Protocol.syncClocks,
    Protocol.onOpen, Protocol.onClose, Timer_setInterval, Timer_clearInterval,
    call, socket_send;
  cbv zeta;
  repeat first
    [ apply keeps_emit_eventHandler
    | apply keeps_remoteTime
    | apply keeps_send; [intros; reflexivity|]
    | keeps_step ].

Lemma perform_keeps_eventHandler (a : Protocol.Action) :
  is_registration a = false -> keeps eventHandler (perform a).
Proof.
  destruct a; intros Ha; try discriminate;
    try (apply keeps_onMessage_eventHandler); keeps_protocol.
Qed.

Lemma perform_keeps_notified (a : Protocol.Action) :
  Protocol.is_closing a = false -> keeps Protocol.notified (perform a).
Proof.
  destruct a; intros Ha; try discriminate;
    try (apply keeps_onMessage_notified); keeps_protocol.
Qed.

Lemma onClose_returns (w : World) :
  Protocol.onClose w
  = (Normal tt,
     set_effects (effects w ++ [ClearInterval (syncTimer w); Notify (eventHandler w)])
       (set_packetQueue []
          (set_syncTimer 0
             (set_intervals (intervals w ∖ {[syncTimer w]}) (nextInterval w) w)))).
Proof.
  unfold Protocol.onClose, Timer_clearInterval, call. unfold_M. simpl.
  unfold set_effects. simpl. rewrite <- app_assoc. reflexivity.
Qed.

Lemma perform_closing (a : Protocol.Action) (w : World) :
  Protocol.is_closing a = true ->
  Protocol.notified (exec (perform a) w) = Protocol.notified w ++ [eventHandler w]
  /\ eventHandler (exec (perform a) w) = eventHandler w.
Proof.
  destruct a; intros Ha; try discriminate;
    unfold exec, Protocol.perform; unfold mbind, M_bind, modify;
    rewrite onClose_returns; (split; [|reflexivity]);
    unfold Protocol.notified; simpl; rewrite omap_app; reflexivity.
Qed.

Lemma run_cons (a : Protocol.Action) (actions : list Protocol.Action) (w : World) :
  run (a :: actions) w = run actions (exec (perform a) w).
Proof. reflexivity. Qed.

(** Every [error] and every [close] event calls the callback registered
    last before it, and nothing else calls a disconnect callback. *)
Lemma run_notified (actions : list Protocol.Action) (w : World) :
  Protocol.notified (run actions w)
  = Protocol.notified w ++ notifications (eventHandler w) actions.
Proof.
  revert w. induction actions as [|a actions IH]; intros w.
  - simpl. rewrite app_nil_r. reflexivity.
  - rewrite run_cons, IH.
    destruct (Protocol.is_closing a) eqn:Hc.
    + destruct (perform_closing a w Hc) as [-> ->].
      rewrite <- app_assoc.
      destruct a; try discriminate; reflexivity.
    + pose proof (perform_keeps_notified a Hc w) as Hn.
      unfold exec. rewrite Hn. f_equal.
      destruct (is_registration a) eqn:Hr.
      * destruct a; try discriminate. reflexivity.
      * rewrite (perform_keeps_eventHandler a Hr w).
        destruct a; try discriminate; reflexivity.
Qed.

Lemma notifications_length (current : VoidFunction) (actions : list Protocol.Action) :
  length (notifications current actions) = closings actions.
Proof.
  revert current. unfold closings.
  induction actions as [|a actions IH]; intros current; [reflexivity|].
  destruct a; simpl; rewrite ?IH; reflexivity.
Qed.

Lemma notifications_unchanged (current : VoidFunction) (actions : list Protocol.Action) :
  Forall (fun a => is_registration a = false) actions ->
  notifications current actions = repeat current (closings actions).
Proof.
  unfold closings. induction 1 as [|a actions Ha _ IH]; [reflexivity|].
  destruct a; try discriminate; simpl; rewrite ?IH; reflexivity.
Qed.


(** *** Closing *)

(** C4, amended.  Each [error] or [close] event empties the queue, cancels
    the interval recorded in [syncTimer] and calls the registered callback
    once; over a run the callback calls number as many as those events. *)
Theorem close_notifies_once_per_event (w : World) (actions : list Protocol.Action) :
  (exists w',
      Protocol.onClose w = (Normal tt, w')
      /\ packetQueue w' = []
      /\ syncTimer w' = 0
      /\ (syncTimer w ∉ intervals w')
      /\ effects w' = effects w ++ [ClearInterval (syncTimer w); Notify (eventHandler w)])
  /\ length (Protocol.notified (run actions w))
     = (length (Protocol.notified w) + closings actions)%nat.
Proof.
  split.
  - eexists. split; [apply onClose_returns|]. simpl.
    repeat split; try reflexivity.
    intros [_ Hx]%elem_of_difference. apply Hx, elem_of_singleton. reflexivity.
  - rewrite run_notified, length_app, notifications_length. reflexivity.
Qed.

(** C10. The callback registered last replaces the one before it: once
    [cb1] and then [cb2] have been registered, every [error] or [close]
    event of a run without further registrations calls [cb2], and [cb1] is
    not called. *)
Theorem latest_event_handler_wins
    (w : World) (cb1 cb2 : VoidFunction) (actions : list Protocol.Action) :
  Forall (fun a => is_registration a = false) actions ->
  let w2 := exec (Protocol.registerEventHandler cb2)
                 (exec (Protocol.registerEventHandler cb1) w) in
  eventHandler w2 = cb2
  /\ Protocol.notified (run actions w2)
     = Protocol.notified w ++ repeat cb2 (closings actions)
  /\ (cb1 <> cb2 ->
      count_occ VoidFunction_eq_dec (Protocol.notified (run actions w2)) cb1
      = count_occ VoidFunction_eq_dec (Protocol.notified w) cb1).
Proof.
  intros Hreg w2.
  assert (Protocol.notified (run actions w2)
          = Protocol.notified w ++ repeat cb2 (closings actions)) as Hn.
  { rewrite run_notified. subst w2. simpl.
    rewrite notifications_unchanged by exact Hreg. reflexivity. }
  split; [reflexivity|]. split; [exact Hn|].
  intros Hne. rewrite Hn, count_occ_app.
  rewrite (count_occ_repeat_neq VoidFunction_eq_dec); [lia|].
  intros E. apply Hne. exact E.
Qed.

(** *** Dispatch *)


Lemma onMessage_unhandled (data : string) (obj : json) (tag : option json) (w : World) :
  JSON_parse data = Some obj ->
  index0 obj w = (Normal tag, w) ->
  handlers_get (handlers w) tag = None ->
  onMessage data w = (Normal tt, set_effects (effects w ++ [ConsoleWarn obj]) w).
Proof.
  intros Hp Hi Hh. unfold Protocol.onMessage. rewrite Hp.
  unfold mbind, M_bind. rewrite Hi. unfold gets. rewrite Hh. reflexivity.
Qed.

Lemma index0_total (obj : json) :
  obj <> JNull -> exists tag, forall w, index0 obj w = (Normal tag, w).
Proof.
  intros Hne. destruct obj; try (eexists; intros w; reflexivity).
  contradiction.
Qed.


(** Frames that parse but carry no leading element at all: an empty array,
    a number, a string are dropped with the same warning; [null] is not. *)
Lemma untagged_frame_is_dropped (data : string) (obj : json) (w : World) :
  JSON_parse data = Some obj ->
  obj = JArr [] \/ (exists n, obj = JNum n) \/ (exists s, obj = JStr s)
  \/ (exists b, obj = JBool b) ->
  onMessage data w = (Normal tt, set_effects (effects w ++ [ConsoleWarn obj]) w).
Proof.
  intros Hp Ho.
  destruct Ho as [->|[[n ->]|[[s ->]|[b ->]]]].
  - apply (onMessage_unhandled data _ None); [exact Hp|reflexivity|reflexivity].
  - apply (onMessage_unhandled data _ None); [exact Hp|reflexivity|reflexivity].
  - destruct s as [|c s].
    + apply (onMessage_unhandled data _ None); [exact Hp|reflexivity|reflexivity].
    + apply (onMessage_unhandled data _ (Some (JStr (String c EmptyString))));
        [exact Hp|reflexivity|reflexivity].
  - apply (onMessage_unhandled data _ None); [exact Hp|reflexivity|reflexivity].
Qed.

Lemma null_frame_throws (data : string) (w : World) :
  JSON_parse data = Some JNull ->
  exists message, onMessage data w = (Abrupt (TypeError message), w).
Proof.
  intros Hp. unfold Protocol.onMessage. rewrite Hp. eexists. reflexivity.
Qed.


Lemma registerPacketHandler_returns (packetType : Z) (cb : PacketHandler) (w : World) :
  exists hs,
    Protocol.registerPacketHandler packetType cb w = (Normal tt, set_handlers hs w)
    /\ hs !! packetType = Some (default [] (handlers w !! packetType) ++ [cb])
    /\ (forall other, other <> packetType -> hs !! other = handlers w !! other).
Proof.
  unfold Protocol.registerPacketHandler. unfold_M.
  destruct (handlers w !! packetType) as [l|] eqn:Hl.
  - rewrite bool_decide_eq_true_2 by (exists l; reflexivity).
    eexists. split; [reflexivity|]. split.
    + rewrite lookup_alter_eq, Hl. reflexivity.
    + intros other Hne. apply lookup_alter_ne. congruence.
  - rewrite bool_decide_eq_false_2 by (intros [l Hs]; discriminate).
    eexists. split; [reflexivity|]. simpl. split.
    + rewrite lookup_alter_eq, lookup_insert_eq. reflexivity.
    + intros other Hne. rewrite lookup_alter_ne by congruence.
      apply lookup_insert_ne. congruence.
Qed.

Lemma onMessage_handled
    (data : string) (t : Z) (payload : list json) (hs : list PacketHandler) (w : World) :
  JSON_parse data = Some (JArr (JInt t :: payload)) ->
  handlers w !! t = Some hs ->
  onMessage data w = forEach (fun handler => Protocol.invoke handler payload) hs w.
Proof.
  intros Hp Hh. unfold Protocol.onMessage. rewrite Hp. unfold_M. simpl.
  rewrite Hh. reflexivity.
Qed.



End ProtocolFacts.

(** ** The statements at work *)

Example sample_stringify_packet :
  Sample.stringify (JArr [JInt 4; JInt (-2147483639)]) = "[4,-2147483639]"%string.
Proof. reflexivity. Qed.

Lemma clock_sync_reply_stores_estimate_witness :
  - two31 <= 1000 < two31
  /\ - two32 <= 5000 <= two32
  /\ exists w',
      Protocol.onClockSyncReply [JInt 1000; JInt 5000] (Protocol.new 1200)
      = (Normal tt, w')
      /\ roundTripTime w' = 200 /\ serverTimeDelta w' = 3880.
Proof.
  assert (- two31 <= 1000 < two31) as Ht by (unfold two31; lia).
  assert (- two32 <= 5000 <= two32) as Hs by (unfold two32; lia).
  split; [exact Ht|]. split; [exact Hs|].
  destruct (clock_sync_reply_stores_estimate (Protocol.new 1200) 1000 5000 [] Ht Hs)
    as (w' & E & _ & _ & Hscen).
  exists w'. split; [exact E|]. apply Hscen; reflexivity.
Defined.

(** C2 is not what the code does for every 32-bit input.  A probe stamped
    [2^31 - 1] and answered 10 ms later by a server whose clock is 1 ms ahead,
    across the wrap of the signed 32-bit clock, leaves a negative offset; a
    server that counts unsigned, answering [2^32 - 1] to a probe stamped
    [-2^31], leaves one above 2^32. *)
Lemma stored_delta_can_leave_range :
  let below := exec (Protocol.onClockSyncReply [JInt 2147483647; JInt (-2147483648)])
                    (Protocol.new 1763084075017) in
  let above := exec (Protocol.onClockSyncReply [JInt (-2147483648); JInt 4294967295])
                    (Protocol.new 1763084075008) in
  (roundTripTime below = 10 /\ serverTimeDelta below = -5
   /\ ~ (0 <= serverTimeDelta below < two32))
  /\ (roundTripTime above = 0 /\ serverTimeDelta above = 6442450943
      /\ ~ (0 <= serverTimeDelta above < two32)).
Proof.
  assert (floor_delta (-2147483648) 2147483647
            (wrapNegative (asInt32 (Date_now (Protocol.new 1763084075017)) - 2147483647))
          = Some (-4294967301)) as H1 by (vm_compute; reflexivity).
  assert (floor_delta 4294967295 (-2147483648)
            (wrapNegative (asInt32 (Date_now (Protocol.new 1763084075008)) - -2147483648))
          = Some 6442450943) as H2 by (vm_compute; reflexivity).
  cbv zeta. unfold exec.
  rewrite (onClockSyncReply_integers _ _ _ _ _ H1).
  rewrite (onClockSyncReply_integers _ _ _ _ _ H2). simpl.
  change (wrapNegative (-4294967301)) with (-5).
  change (wrapNegative 6442450943) with 6442450943.
  unfold two32. repeat split; try reflexivity; lia.
Qed.

Lemma stored_delta_in_range_witness :
  - two31 <= 1000 < two31
  /\ - two32 <= 5000 <= two32
  /\ - 5 * two32
     <= 5 * (5000 - 1000)
        - 3 * wrapNegative (asInt32 (Date_now (Protocol.new 1200)) - 1000)
     < 5 * two32
  /\ 0 <= serverTimeDelta
            (exec (Protocol.onClockSyncReply [JInt 1000; JInt 5000]) (Protocol.new 1200))
       < two32.
Proof.
  assert (- two31 <= 1000 < two31) as Ht by (unfold two31; lia).
  assert (- two32 <= 5000 <= two32) as Hs by (unfold two32; lia).
  assert (- 5 * two32
          <= 5 * (5000 - 1000)
             - 3 * wrapNegative (asInt32 (Date_now (Protocol.new 1200)) - 1000)
          < 5 * two32) as Hr by (vm_compute; split; [discriminate|reflexivity]).
  split; [exact Ht|]. split; [exact Hs|]. split; [exact Hr|].
  exact (stored_delta_in_range (Protocol.new 1200) 1000 5000 [] Ht Hs Hr).
Defined.

Lemma queued_sends_are_delivered_in_order_witness :
  readyState (Protocol.new 0) <> OPEN
  /\ exists w3,
      exec (forEach (Protocol.send Sample.stringify) [JArr [JInt 9; JInt 1]])
        (exec (Protocol.perform Sample.parse Sample.stringify Protocol.SocketOpened)
           (exec (forEach (Protocol.send Sample.stringify)
                    [JArr [JInt 1; JNull]; JArr [JInt 7; JInt 3]])
                 (Protocol.new 0)))
      = w3
      /\ Protocol.transmitted w3 = ["[1,null]"; "[7,3]"; "[9,1]"]%string
      /\ packetQueue w3 = [].
Proof.
  assert (readyState (Protocol.new 0) <> OPEN) as H by discriminate.
  split; [exact H|].
  destruct (queued_sends_are_delivered_in_order Sample.parse Sample.stringify
              (Protocol.new 0)
              [JArr [JInt 1; JNull]; JArr [JInt 7; JInt 3]] [JArr [JInt 9; JInt 1]] H)
    as (w1 & w2 & w3 & E1 & E2 & E3 & _ & _ & T2 & _ & T3 & Q3).
  exists w3. split.
  - unfold exec. rewrite E1. cbn [snd]. rewrite E2. cbn [snd]. rewrite E3. reflexivity.
  - split; [|exact Q3]. rewrite T3, T2. reflexivity.
Defined.

(** C4 is not what the code does when a connection fails: the browser
    reports [error] and then [close], and each of them calls the callback. *)
Lemma failed_connection_notifies_twice :
  Protocol.notified
    (Protocol.run Sample.parse Sample.stringify
       [Protocol.RegisterEventHandler (Callback 0);
        Protocol.SocketError; Protocol.SocketClosed]
       (Protocol.new 0))
  = [Callback 0; Callback 0].
Proof. rewrite run_notified. reflexivity. Qed.






Lemma latest_event_handler_wins_witness :
  Forall (fun a => is_registration a = false)
    [Protocol.SocketOpened; Protocol.SocketError; Protocol.SocketClosed]
  /\ Protocol.notified
       (Protocol.run Sample.parse Sample.stringify
          [Protocol.SocketOpened; Protocol.SocketError; Protocol.SocketClosed]
          (exec (Protocol.registerEventHandler (Callback 2))
             (exec (Protocol.registerEventHandler (Callback 1)) (Protocol.new 0))))
     = [Callback 2; Callback 2].
Proof.
  assert (Forall (fun a => is_registration a = false)
            [Protocol.SocketOpened; Protocol.SocketError; Protocol.SocketClosed]) as H
    by (repeat constructor).
  split; [exact H|].
  destruct (latest_event_handler_wins Sample.parse Sample.stringify (Protocol.new 0)
              (Callback 1) (Callback 2) _ H) as (_ & E & _).
  rewrite E. reflexivity.
Defined.

(** * Further properties of the protocol *)

Section MoreFacts.

Variable JSON_parse : string -> option json.
Variable JSON_stringify : json -> string.

Local Abbreviation send := (Protocol.send JSON_stringify).
Local Abbreviation onMessage := (Protocol.onMessage JSON_parse).
Local Abbreviation perform := (Protocol.perform JSON_parse JSON_stringify).
Local Abbreviation run := (Protocol.run JSON_parse JSON_stringify).

(** ** Ending normally *)

Lemma returns_ret {A} (a : A) : returns (mret a : M A).
Proof. intros w. exists a, w. reflexivity. Qed.

Lemma returns_gets {A} (g : World -> A) : returns (gets g).
Proof. intros w. exists (g w), w. reflexivity. Qed.

Lemma returns_modify (g : World -> World) : returns (modify g).
Proof. intros w. exists tt, (g w). reflexivity. Qed.

Lemma returns_emit (e : Effect) : returns (emit e).
Proof. apply returns_modify. Qed.

Lemma returns_bind {A B} (c : M A) (k : A -> M B) :
  returns c -> (forall a, returns (k a)) -> returns (c ≫= k).
Proof.
  intros Hc Hk w. destruct (Hc w) as (a & w' & E).
  destruct (Hk a w') as (b & w'' & E'). exists b, w''.
  unfold mbind, M_bind. rewrite E. exact E'.
Qed.

Lemma returns_send (data : json) : returns (send data).
Proof.
  intros w. destruct (decide (readyState w = OPEN)) as [E|E].
  - eexists _, _. apply (send_transmits JSON_stringify), E.
  - eexists _, _. apply (send_queues JSON_stringify), E.
Qed.

Lemma returns_remoteTime : returns Protocol.remoteTime.
Proof.
  intros w. destruct (simulation w) as [sim|] eqn:E.
  - eexists _, _. apply remoteTime_attached, E.
  - eexists _, _. apply remoteTime_detached, E.
Qed.

Ltac returns_step :=
  first
    [ apply returns_ret | apply returns_gets | apply returns_modify
    | apply returns_emit | apply returns_send | apply returns_remoteTime
    | apply returns_bind; [|intros]
    | match goal with
      | |- returns (if ?b then _ else _) => destruct b
      end ].

Lemma perform_returns (a : Protocol.Action) :
  is_message a = false -> returns (perform a).
Proof.
  intros Hm. destruct a; try discriminate; clear Hm;
    unfold Protocol.perform, Protocol.registerEventHandler,
      Protocol.registerPacketHandler, Protocol.login, Protocol.startGame,
      Protocol.sendPosition, Protocol.sendDeath, Protocol.sendChat,
      Protocol.sendShipChange, Protocol.sendPrizeCollected,
      Protocol.sendSetPresence, Protocol.sendFlagCaptured, Protocol.syncClocks,
      Timer_setInterval;
    cbv zeta; try solve [repeat returns_step].
  intros w. eexists _, _. apply (socket_opened JSON_parse JSON_stringify).
Qed.


(** ** Invariants of single steps *)

Lemma preserves_ret {A} (P : World -> Prop) (a : A) : preserves P (mret a : M A).
Proof. intros w H. exact H. Qed.

Lemma preserves_gets {A} (P : World -> Prop) (g : World -> A) : preserves P (gets g).
Proof. intros w H. exact H. Qed.

Lemma preserves_throw {A} (P : World -> Prop) (e : JsError) : preserves P (@throw A e).
Proof. intros w H. exact H. Qed.

Lemma preserves_unmodelled {A} (P : World -> Prop) : preserves P (@unmodelled A).
Proof. intros w H. exact H. Qed.

Lemma preserves_modify (P : World -> Prop) (g : World -> World) :
  (forall w, P w -> P (g w)) -> preserves P (modify g).
Proof. intros Hg w H. apply Hg, H. Qed.

Lemma preserves_bind {A B} (P : World -> Prop) (c : M A) (k : A -> M B) :
  preserves P c -> (forall a, preserves P (k a)) -> preserves P (c ≫= k).
Proof.
  intros Hc Hk w H. unfold mbind, M_bind.
  specialize (Hc w H). destruct (c w) as [[a| |] w']; simpl in *; try exact Hc.
  apply Hk, Hc.
Qed.

Lemma preserves_forEach {A} (P : World -> Prop) (g : A -> M unit) (l : list A) :
  (forall a, preserves P (g a)) -> preserves P (forEach g l).
Proof.
  intros Hg. induction l as [|a l IH]; simpl.
  - apply preserves_ret.
  - apply preserves_bind; [apply Hg|intros _; exact IH].
Qed.

Lemma preserves_send (P : World -> Prop) (data : json) :
  (forall w, P w -> readyState w <> OPEN ->
             P (set_packetQueue (packetQueue w ++ [JSON_stringify data]) w)) ->
  (forall w, P w -> readyState w = OPEN ->
             P (set_effects (effects w ++ [SocketSend (JSON_stringify data)]) w)) ->
  preserves P (send data).
Proof.
  intros Hq Ht w H. destruct (decide (readyState w = OPEN)) as [E|E].
  - rewrite (send_transmits JSON_stringify w data E). apply Ht; assumption.
  - rewrite (send_queues JSON_stringify w data E). apply Hq; assumption.
Qed.

Lemma preserves_run (P : World -> Prop) (ok : Protocol.Action -> bool)
    (actions : list Protocol.Action) :
  (forall a, ok a = true -> preserves P (perform a)) ->
  forallb ok actions = true ->
  forall w, P w -> P (run actions w).
Proof.
  intros Hstep. induction actions as [|a actions IH]; intros Hok w H.
  - exact H.
  - simpl in Hok. apply andb_prop in Hok as [Ha Hok].
    rewrite (run_cons JSON_parse JSON_stringify). apply IH; [exact Hok|].
    apply Hstep; assumption.
Qed.

Ltac unfold_protocol :=
  unfold Protocol.perform, Protocol.registerEventHandler,
    Protocol.registerPacketHandler, Protocol.login, Protocol.startGame,
    Protocol.sendPosition, Protocol.sendDeath, Protocol.sendChat,
    Protocol.sendShipChange, Protocol.sendPrizeCollected,
    Protocol.sendSetPresence, Protocol.sendFlagCaptured, Protocol.syncClocks,
    Protocol.remoteTime, Protocol.onOpen, Protocol.onClose,
    Protocol.onMessage, Protocol.invoke, Protocol.onClockSyncReply,
    Timer_setInterval, Timer_clearInterval, call, socket_send,
    index0, slice1, integer_at, console_error, console_warn;
  unfold emit; cbv zeta.

(** [leaf] proves that one update keeps the invariant. *)
Ltac preserves_step leaf :=
  lazymatch goal with
  | |- preserves _ (mret _) => apply preserves_ret
  | |- preserves _ (gets _) => apply preserves_gets
  | |- preserves _ (throw _) => apply preserves_throw
  | |- preserves _ unmodelled => apply preserves_unmodelled
  | |- preserves _ (Protocol.send _ _) => apply preserves_send; [leaf|leaf]
  | |- preserves _ (modify _) => apply preserves_modify; leaf
  | |- preserves _ (forEach _ _) => apply preserves_forEach; intros
  | |- preserves _ (_ ≫= _) => apply preserves_bind; [|intros]
  | |- preserves _ (match ?x with _ => _ end) => destruct x
  end.

Ltac preserves_auto leaf := unfold_protocol; repeat preserves_step leaf.


Lemma perform_open_queue (a : Protocol.Action) :
  preserves (fun w => readyState w = OPEN -> packetQueue w = []) (perform a).
Proof.
  destruct a;
    try solve [preserves_auto ltac:(intros; cbn in *; try congruence; auto)].
  intros w _. rewrite (socket_opened JSON_parse JSON_stringify). reflexivity.
Qed.

Ltac silent_leaf :=
  let H1 := fresh in let H2 := fresh in
  cbn beta; intros ? [H1 H2]; intros; split;
  [ cbn in *; congruence
  | first [ exact H2
          | rewrite transmitted_app; cbn; rewrite app_nil_r; exact H2
          | congruence ] ].

Lemma perform_silent (sent : list string) (a : Protocol.Action) :
  is_opening a = false ->
  preserves (fun w => readyState w <> OPEN /\ Protocol.transmitted w = sent) (perform a).
Proof.
  intros Ha. destruct a; try discriminate; clear Ha;
    solve [preserves_auto silent_leaf].
Qed.

Ltac appends_leaf :=
  let H1 := fresh in let H2 := fresh in let more := fresh "more" in
  cbn beta; intros ? [H1 [more H2]]; intros; split;
  [ cbn in *; congruence
  | first [ exists more; exact H2
          | eexists; cbn; rewrite H2, <- app_assoc; reflexivity
          | congruence ] ].

Lemma perform_appends (queue : list string) (a : Protocol.Action) :
  is_socket_event a = false ->
  preserves (fun w => readyState w <> OPEN
                      /\ exists more, packetQueue w = queue ++ more) (perform a).
Proof.
  intros Ha. destruct a; try discriminate; clear Ha;
    solve [preserves_auto appends_leaf].
Qed.


(** ** Runs *)

Lemma run_app (before after : list Protocol.Action) (w : World) :
  run (before ++ after) w = run after (run before w).
Proof. apply foldl_app. Qed.

Lemma run_silent (actions : list Protocol.Action) (w : World) :
  readyState w <> OPEN ->
  forallb (fun a => negb (is_opening a)) actions = true ->
  readyState (run actions w) <> OPEN
  /\ Protocol.transmitted (run actions w) = Protocol.transmitted w.
Proof.
  intros Hw Hacts.
  apply (preserves_run
           (fun w' => readyState w' <> OPEN
                      /\ Protocol.transmitted w' = Protocol.transmitted w)
           (fun a => negb (is_opening a))); [|exact Hacts|split; [exact Hw|reflexivity]].
  intros a Ha. apply perform_silent, negb_true_iff, Ha.
Qed.

Lemma run_appends (actions : list Protocol.Action) (w : World) :
  readyState w <> OPEN ->
  forallb (fun a => negb (is_socket_event a)) actions = true ->
  readyState (run actions w) <> OPEN
  /\ exists more, packetQueue (run actions w) = packetQueue w ++ more.
Proof.
  intros Hw Hacts.
  apply (preserves_run
           (fun w' => readyState w' <> OPEN
                      /\ exists more, packetQueue w' = packetQueue w ++ more)
           (fun a => negb (is_socket_event a))); [|exact Hacts|].
  - intros a Ha. apply perform_appends, negb_true_iff, Ha.
  - split; [exact Hw|]. exists []. symmetry. apply app_nil_r.
Qed.

Lemma closing_world (a : Protocol.Action) (w : World) :
  Protocol.is_closing a = true ->
  exec (perform a) w
  = set_effects (effects w ++ [ClearInterval (syncTimer w); Notify (eventHandler w)])
      (set_packetQueue []
         (set_syncTimer 0
            (set_intervals (intervals w ∖ {[syncTimer w]}) (nextInterval w)
               (set_readyState CLOSED w)))).
Proof.
  intros Ha. destruct a; try discriminate; unfold exec, Protocol.perform;
    unfold_M; rewrite onClose_returns; reflexivity.
Qed.

Lemma registered_world (packetType : Z) (cb : PacketHandler) (w : World) :
  exists hs, exec (Protocol.registerPacketHandler packetType cb) w = set_handlers hs w.
Proof.
  destruct (registerPacketHandler_returns packetType cb w) as (hs & E & _).
  exists hs. unfold exec. rewrite E. reflexivity.
Qed.

Lemma opened_transmits (w : World) :
  Protocol.transmitted (run [Protocol.SocketOpened] w)
  = Protocol.transmitted w ++ packetQueue w.
Proof.
  unfold Protocol.run, exec. cbn [foldl].
  rewrite (socket_opened JSON_parse JSON_stringify). cbn [snd].
  unfold Protocol.transmitted. cbn [effects set_effects set_packetQueue].
  rewrite omap_app. f_equal. apply omap_SocketSend.
Qed.

Lemma Application_constructed (strategy accessToken : json) (now : Z) :
  exists hs,
    run (Application.constructor strategy accessToken) (Protocol.new now)
    = set_packetQueue
        [JSON_stringify
           (JArr [JInt C2SPacketType.LOGIN; Application.loginData strategy accessToken])]
        (set_handlers hs (Protocol.fresh now)).
Proof.
  unfold Application.constructor, Protocol.new, Protocol.initializePacketHandlers.
  destruct (registered_world S2CPacketType.CLOCK_SYNC_REPLY OnClockSyncReply
              (Protocol.fresh now)) as (hs0 & E0).
  rewrite E0, !(run_cons JSON_parse JSON_stringify).
  unfold Protocol.perform at 2.
  destruct (registered_world S2CPacketType.LOGIN_REPLY Application.startGame_
              (set_handlers hs0 (Protocol.fresh now))) as (hs1 & E1).
  rewrite E1. unfold Protocol.perform, Protocol.login, exec.
  rewrite (send_queues JSON_stringify) by discriminate.
  exists hs1. reflexivity.
Qed.

(** X1.  No call of the public interface, no socket [open], [error] or
    [close] event and no timer tick ends in an exception, whatever the state
    of the socket: a packet sent while the socket is still connecting is
    queued, it never reaches [WebSocket.send]. *)
Theorem calls_and_events_return_normally (a : Protocol.Action) (w : World) :
  is_message a = false -> exists w', perform a w = (Normal tt, w').
Proof.
  intros Ha. destruct (perform_returns a Ha w) as ([] & w' & E).
  exists w'. exact E.
Qed.

(** X2.  Whenever the socket is OPEN the queue is empty: the invariant
    holds of a new instance and every action keeps it. *)
Theorem open_socket_has_empty_queue (actions : list Protocol.Action) (w : World) :
  (readyState w = OPEN -> packetQueue w = []) ->
  readyState (run actions w) = OPEN -> packetQueue (run actions w) = [].
Proof.
  intros Hw.
  apply (preserves_run (fun w => readyState w = OPEN -> packetQueue w = [])
           (fun _ => true)); [|apply forallb_forall; reflexivity|exact Hw].
  intros a _. apply perform_open_queue.
Qed.

(** X3.  As long as the socket does not report [open], nothing is put on
    the wire, whatever is called and whatever else happens. *)
Theorem nothing_is_sent_before_open (actions : list Protocol.Action) (w : World) :
  readyState w <> OPEN ->
  forallb (fun a => negb (is_opening a)) actions = true ->
  Protocol.transmitted (run actions w) = Protocol.transmitted w.
Proof. intros Hw Hacts. apply run_silent; assumption. Qed.

(** X4.  An [error] or [close] event empties the queue, and from then on
    nothing is put on the wire: what was queued is lost, and what is sent
    later is queued and stays there. *)
Theorem nothing_is_sent_after_close
    (a : Protocol.Action) (actions : list Protocol.Action) (w : World) :
  Protocol.is_closing a = true ->
  forallb (fun a => negb (is_opening a)) actions = true ->
  packetQueue (exec (perform a) w) = []
  /\ Protocol.transmitted (run (a :: actions) w) = Protocol.transmitted w.
Proof.
  intros Ha Hacts. rewrite (run_cons JSON_parse JSON_stringify).
  rewrite (closing_world a w Ha). split; [reflexivity|].
  match goal with |- Protocol.transmitted (run _ ?w1) = _ =>
    destruct (run_silent actions w1) as [_ E]; [discriminate|exact Hacts|rewrite E]
  end.
  unfold Protocol.transmitted. cbn [effects set_effects].
  rewrite omap_app. apply app_nil_r.
Qed.

(** X5.  While the socket is not open and reports nothing, calls only
    append to the queue: what was queued stays, in its place. *)
Theorem queue_only_grows_while_connecting (actions : list Protocol.Action) (w : World) :
  readyState w <> OPEN ->
  forallb (fun a => negb (is_socket_event a)) actions = true ->
  exists more, packetQueue (run actions w) = packetQueue w ++ more.
Proof. intros Hw Hacts. apply run_appends; assumption. Qed.

(** X6.  The login packet of [Application] is the first frame on the wire:
    whatever is called between the constructor and the moment the socket
    opens, the frames are sent in the order of the calls, the login first. *)
Theorem login_is_the_first_frame
    (strategy accessToken : json) (now : Z) (actions : list Protocol.Action) :
  forallb (fun a => negb (is_socket_event a)) actions = true ->
  exists more,
    Protocol.transmitted
      (run (Application.constructor strategy accessToken
            ++ actions ++ [Protocol.SocketOpened]) (Protocol.new now))
    = JSON_stringify
        (JArr [JInt C2SPacketType.LOGIN; Application.loginData strategy accessToken])
      :: more.
Proof.
  intros Hacts. rewrite !run_app.
  destruct (Application_constructed strategy accessToken now) as (hs & E).
  rewrite E, opened_transmits.
  match goal with |- context [run actions ?w1] =>
    destruct (run_appends actions w1) as [_ [more Hq]]; [discriminate|exact Hacts|];
    destruct (run_silent actions w1) as [_ Ht];
      [discriminate
      |apply forallb_forall; intros a Hin;
       rewrite forallb_forall in Hacts; specialize (Hacts a Hin);
       destruct a; try reflexivity; discriminate|]
  end.
  exists more. rewrite Ht, Hq. reflexivity.
Qed.


(** ** Clock synchronisation *)

Lemma elapsed_32bit (now0 now1 : Z) :
  0 <= now1 - now0 < two32 ->
  wrapNegative (asInt32 now1 - asInt32 now0) = now1 - now0.
Proof.
  intros H.
  destruct (asInt32_congruent now0) as [k0 E0].
  destruct (asInt32_congruent now1) as [k1 E1].
  pose proof (asInt32_range now0). pose proof (asInt32_range now1).
  destruct (wrapNegative_cases (asInt32 now1 - asInt32 now0)) as [[? ->]|[? ->]];
    unfold two31, two32 in *; lia.
Qed.

Lemma onClockSyncReply_roundTripTime (w : World) (t0 serverTime : Z) (rest : list json) :
  roundTripTime (exec (Protocol.onClockSyncReply (JInt t0 :: JInt serverTime :: rest)) w)
  = wrapNegative (asInt32 (Date_now w) - t0).
Proof.
  unfold exec, Protocol.onClockSyncReply, integer_at, JInt. cbn [lookup list_lookup].
  unfold_M. cbn [snd fst].
  fold (wrapNegative (Protocol.asInt32 (Date_now w) - t0)).
  destruct (floor_delta _ _ _) as [d|]; [|reflexivity].
  cbn. destruct (d <? 0); reflexivity.
Qed.

(** The world a clock-sync reply leaves is the world before it with the two
    estimates overwritten, by whatever the handler got to. *)
Lemma onClockSyncReply_overwrites (w : World) (packet : list json) :
  exists rtt delta,
    exec (Protocol.onClockSyncReply packet) w
    = set_serverTimeDelta delta (set_roundTripTime rtt w).
Proof.
  assert (Hid : w = set_serverTimeDelta (serverTimeDelta w)
                      (set_roundTripTime (roundTripTime w) w))
    by (destruct w; reflexivity).
  unfold exec, Protocol.onClockSyncReply, integer_at.
  destruct (packet !! 0%nat) as [[| |[t0|]| | |]|];
    try (exists (roundTripTime w), (serverTimeDelta w); exact Hid).
  destruct (packet !! 1%nat) as [[| |[s|]| | |]|];
    try (exists (roundTripTime w), (serverTimeDelta w); exact Hid).
  unfold_M. cbn [snd fst].
  destruct (floor_delta _ _ _) as [d|].
  - cbn. destruct (d <? 0); eexists _, _; reflexivity.
  - exists (wrapNegative (asInt32 (Date_now w) - t0)), (serverTimeDelta w).
    clear Hid. destruct w; reflexivity.
Qed.

(** X7.  The round-trip time is the time between the probe and its reply:
    a probe stamped when the page clock reads [now0] and answered when it
    reads [now1], less than 2^32 ms later, gives [now1 - now0], although
    only the low 32 bits of the clock travel. *)
Theorem reply_measures_round_trip
    (w : World) (now0 now1 serverTime : Z) (rest : list json) :
  0 <= now1 - now0 < two32 ->
  let sent := set_Date_now now0 w in
  Protocol.syncClocks JSON_stringify sent
  = send (JArr [JInt C2SPacketType.CLOCK_SYNC; JInt (asInt32 now0)]) sent
  /\ forall w', Date_now w' = now1 ->
     roundTripTime
       (exec (Protocol.onClockSyncReply (JInt (asInt32 now0) :: JInt serverTime :: rest)) w')
     = now1 - now0.
Proof.
  intros H sent. split; [reflexivity|].
  intros w' <-. rewrite onClockSyncReply_roundTripTime. apply elapsed_32bit, H.
Qed.

(** X8.  After a reply that echoes a 32-bit stamp the round-trip time is
    in [0, 2^32), whatever the server time in it. *)
Theorem round_trip_time_is_not_negative
    (w : World) (t0 serverTime : Z) (rest : list json) :
  - two31 <= t0 < two31 ->
  0 <= roundTripTime
         (exec (Protocol.onClockSyncReply (JInt t0 :: JInt serverTime :: rest)) w)
    < two32.
Proof. intros H. rewrite onClockSyncReply_roundTripTime. apply rtt_range, H. Qed.

(** X9.  Each reply replaces the estimate: the time delta and the
    round-trip time after a reply depend on that reply and the clock only,
    not on what an earlier reply left (nothing is averaged or smoothed). *)
Theorem latest_reply_replaces_the_estimate
    (w : World) (earlier : list json) (now t0 serverTime : Z) (rest : list json) :
  - two31 <= t0 < two31 -> - two32 <= serverTime <= two32 ->
  exec (Protocol.onClockSyncReply (JInt t0 :: JInt serverTime :: rest))
       (set_Date_now now (exec (Protocol.onClockSyncReply earlier) w))
  = exec (Protocol.onClockSyncReply (JInt t0 :: JInt serverTime :: rest))
         (set_Date_now now w).
Proof.
  intros Ht Hs. destruct (onClockSyncReply_overwrites w earlier) as (r & d & ->).
  unfold exec. rewrite !onClockSyncReply_32bit by assumption.
  destruct w; reflexivity.
Qed.

(** X10.  How good the estimate is.  If the server's clock is [offset]
    ahead and the server stamped its reply [up] ms after the probe left,
    somewhere within the round trip, then the stored delta differs from
    [offset] by at most 0.6 round-trip times and one millisecond. *)
Theorem estimate_is_within_the_round_trip
    (w : World) (t0 serverTime up offset : Z) (rest : list json) :
  - two31 <= t0 < two31 -> - two32 <= serverTime <= two32 ->
  let rtt := wrapNegative (asInt32 (Date_now w) - t0) in
  0 <= up <= rtt ->
  serverTime = t0 + up + offset ->
  0 <= 5 * (up + offset) - 3 * rtt ->
  let delta :=
    serverTimeDelta
      (exec (Protocol.onClockSyncReply (JInt t0 :: JInt serverTime :: rest)) w) in
  5 * offset - 3 * rtt - 5 < 5 * delta <= 5 * offset + 2 * rtt.
Proof.
  intros Ht Hs rtt Hup -> Hpos delta. subst delta. unfold exec.
  rewrite onClockSyncReply_32bit by assumption. cbn [snd]. fold rtt.
  change (serverTimeDelta (set_serverTimeDelta ?d _)) with d.
  replace (t0 + up + offset - t0) with (up + offset) by lia.
  pose proof (Z.div_mod (5 * (up + offset) - 3 * rtt) 5 ltac:(lia)) as Hd.
  pose proof (Z.mod_pos_bound (5 * (up + offset) - 3 * rtt) 5 ltac:(lia)) as Hm.
  assert (0 <= (5 * (up + offset) - 3 * rtt) / 5) by (apply Z.div_pos; lia).
  destruct (wrapNegative_cases ((5 * (up + offset) - 3 * rtt) / 5)) as [[? ->]|[? ->]]; lia.
Qed.


(** ** The registry *)

Lemma perform_keeps_registered (t : Z) (l : list PacketHandler) (a : Protocol.Action) :
  preserves (fun w => exists more, handlers w !! t = Some (l ++ more)) (perform a).
Proof.
  destruct a;
    try solve [preserves_auto ltac:(intros; cbn in *; assumption)].
  intros w [more Hw]. unfold Protocol.perform.
  destruct (registerPacketHandler_returns packetType cb w) as (hs & -> & Hsame & Hother).
  cbn [snd handlers set_handlers].
  destruct (decide (t = packetType)) as [->|Hne].
  - rewrite Hsame, Hw. exists (more ++ [cb]). cbn [default]. rewrite app_assoc. reflexivity.
  - rewrite Hother by congruence. exists more. exact Hw.
Qed.

Lemma new_handlers (now : Z) :
  handlers (Protocol.new now) !! S2CPacketType.CLOCK_SYNC_REPLY = Some [OnClockSyncReply].
Proof. reflexivity. Qed.

(** X11.  Nothing is ever unregistered: the handlers registered for a
    packet type stay registered, in their order, whatever happens next; a
    later registration is put after them. *)
Theorem registered_handlers_stay
    (actions : list Protocol.Action) (w : World) (t : Z) (l : list PacketHandler) :
  handlers w !! t = Some l ->
  exists more, handlers (run actions w) !! t = Some (l ++ more).
Proof.
  intros Hw.
  apply (preserves_run (fun w => exists more, handlers w !! t = Some (l ++ more))
           (fun _ => true)); [|apply forallb_forall; reflexivity|].
  - intros a _. apply perform_keeps_registered.
  - exists []. rewrite app_nil_r. exact Hw.
Qed.

Lemma run_clock_sync_first (actions : list Protocol.Action) (now : Z) :
  exists more,
    handlers (run actions (Protocol.new now)) !! S2CPacketType.CLOCK_SYNC_REPLY
    = Some (OnClockSyncReply :: more).
Proof.
  apply (preserves_run
           (fun w => exists more,
                handlers w !! S2CPacketType.CLOCK_SYNC_REPLY
                = Some ([OnClockSyncReply] ++ more))
           (fun _ => true)); [|apply forallb_forall; reflexivity|].
  - intros a _. apply perform_keeps_registered.
  - exists []. apply new_handlers.
Qed.

(** X12.  The handler of the protocol itself is always the first to see a
    clock-sync reply: the constructor registers it, and every handler an
    application adds for that type runs after it. *)
Theorem clock_sync_handler_is_first (actions : list Protocol.Action) (now : Z) :
  exists more,
    handlers (run actions (Protocol.new now)) !! S2CPacketType.CLOCK_SYNC_REPLY
    = Some (OnClockSyncReply :: more).
Proof. apply run_clock_sync_first. Qed.

(** ** Frames that make [onMessage] throw *)

(** X13.  A frame that parses to [null], or to an object whose member
    ["0"] is a registered packet type, ends [onMessage] in a TypeError: no
    handler runs, nothing is logged and the instance is left as it was. *)
Theorem frames_that_throw (data : string) (w : World) :
  frame_throws (handlers w) (JSON_parse data) ->
  exists message, onMessage data w = (Abrupt (TypeError message), w).
Proof.
  unfold frame_throws, Protocol.onMessage.
  destruct (JSON_parse data) as [[| | | | |members]|]; try contradiction.
  - intros _. eexists. reflexivity.
  - intros [hs Hhs]. eexists. unfold index0, slice1. unfold_M.
    rewrite Hhs. reflexivity.
Qed.


(** ** Connection loss and the callers *)

Lemma notifications_app (current : VoidFunction) (before after : list Protocol.Action) :
  Forall (fun a => is_registration a = false) before ->
  notifications current (before ++ after)
  = repeat current (closings before) ++ notifications current after.
Proof.
  unfold closings. induction 1 as [|a before Ha _ IH]; [reflexivity|].
  destruct a; try discriminate; simpl; rewrite ?IH; reflexivity.
Qed.

Lemma notifications_quiet (current : VoidFunction) (actions : list Protocol.Action) :
  forallb (fun a => negb (Protocol.is_closing a)) actions = true ->
  notifications current actions = [].
Proof.
  revert current. induction actions as [|a actions IH]; intros current H; [reflexivity|].
  simpl in H. apply andb_prop in H as [Ha H].
  destruct a; try discriminate; simpl; apply IH, H.
Qed.

(** X14.  A connection lost while the game is still loading is reported to
    nobody: until [Game] registers its callback the protocol calls the
    empty default, and the callback registered afterwards is not called for
    what happened before. *)
Theorem loss_before_the_game_is_unreported
    (strategy accessToken : json) (now : Z) (before later : list Protocol.Action)
    (sim : Simulation) (ship : Z) :
  Forall (fun a => is_registration a = false) before ->
  forallb (fun a => negb (Protocol.is_closing a)) later = true ->
  Protocol.notified
    (run (Application.constructor strategy accessToken ++ before
          ++ Game.constructor sim ship ++ later) (Protocol.new now))
  = repeat Noop (closings before).
Proof.
  intros Hbefore Hlater. rewrite (run_notified JSON_parse JSON_stringify).
  change (Protocol.notified (Protocol.new now)) with (@nil VoidFunction).
  change (eventHandler (Protocol.new now)) with Noop.
  cbn [app Application.constructor notifications Protocol.is_closing].
  rewrite notifications_app by exact Hbefore.
  cbn [app Game.constructor notifications Protocol.is_closing].
  rewrite notifications_quiet by exact Hlater. apply app_nil_r.
Qed.

(** ** The probe timer *)

Lemma startGame_timer (sim : Simulation) (ship : Z) (w : World) :
  let w' := exec (Protocol.startGame JSON_stringify sim ship) w in
  intervals w' = intervals w ∪ {[nextInterval w]}
  /\ nextInterval w' = nextInterval w + 1
  /\ syncTimer w' = nextInterval w.
Proof.
  unfold exec, Protocol.startGame, Timer_setInterval. unfold_M.
  cbn [snd fst].
  match goal with |- context [send ?d ?w1] =>
    destruct (decide (readyState w1 = OPEN)) as [E|E];
    [rewrite (send_transmits JSON_stringify w1 d E)
    |rewrite (send_queues JSON_stringify w1 d E)]
  end; cbn; repeat split; reflexivity.
Qed.

Lemma closing_clears (a : Protocol.Action) (w : World) :
  Protocol.is_closing a = true -> one_interval w ->
  intervals (exec (perform a) w) = ∅.
Proof.
  intros Ha Hw. rewrite (closing_world a w Ha). cbn.
  apply set_eq. intros id. split; [|intros H; exfalso; revert H; apply not_elem_of_empty].
  intros [Hin Hne]%elem_of_difference. exfalso. apply Hne, elem_of_singleton, Hw, Hin.
Qed.

Lemma perform_keeps_no_interval (a : Protocol.Action) :
  is_startGame a = false ->
  preserves (fun w => intervals w = ∅) (perform a).
Proof.
  intros Ha. destruct a; try discriminate; clear Ha;
    try solve [preserves_auto ltac:(intros; cbn in *; assumption)];
    intros w Hw; cbn beta in *;
    match goal with |- context [snd (perform ?a w)] =>
      apply (closing_clears a w eq_refl)
    end;
    intros id; rewrite Hw; intros H; exfalso; revert H; apply not_elem_of_empty.
Qed.

Lemma perform_keeps_one_interval (a : Protocol.Action) :
  is_startGame a = false ->
  preserves one_interval (perform a).
Proof.
  intros Ha. destruct a; try discriminate; clear Ha;
    try solve [preserves_auto ltac:(unfold one_interval; intros; cbn in *; auto)];
    intros w Hw;
    match goal with |- context [snd (perform ?a w)] =>
      pose proof (closing_clears a w eq_refl Hw) as E
    end;
    intros id; unfold exec in E; rewrite E; intros H; exfalso; revert H;
    apply not_elem_of_empty.
Qed.

Lemma started_once
    (before after : list Protocol.Action) (sim : Simulation) (ship : Z) (w : World) :
  forallb (fun a => negb (is_startGame a)) before = true ->
  forallb (fun a => negb (is_startGame a)) after = true ->
  intervals w = ∅ ->
  one_interval (run (before ++ [Protocol.StartGame sim ship] ++ after) w).
Proof.
  intros Hbefore Hafter Hw. rewrite !run_app.
  apply (preserves_run one_interval (fun a => negb (is_startGame a)));
    [|exact Hafter|].
  - intros a Ha. apply perform_keeps_one_interval, negb_true_iff, Ha.
  - assert (Hnone : intervals (run before w) = ∅).
    { apply (preserves_run (fun w => intervals w = ∅)
               (fun a => negb (is_startGame a))); [|exact Hbefore|exact Hw].
      intros a Ha. apply perform_keeps_no_interval, negb_true_iff, Ha. }
    unfold Protocol.run at 1. cbn [foldl Protocol.perform].
    destruct (startGame_timer sim ship (run before w)) as (Hi & _ & Hs).
    intros id. rewrite Hi, Hs, Hnone.
    intros [H|H]%elem_of_union; [exfalso; revert H; apply not_elem_of_empty|].
    apply elem_of_singleton in H. exact H.
Qed.

(** X15.  A game started once leaves no timer behind: after the [error]
    or [close] event no probe interval is live, so no tick sends a probe
    any more.  (The timer module is taken as the specification describes
    it.) *)
Theorem close_stops_the_probe_timer
    (before after : list Protocol.Action) (sim : Simulation) (ship : Z)
    (a : Protocol.Action) (now : Z) :
  forallb (fun a => negb (is_startGame a)) before = true ->
  forallb (fun a => negb (is_startGame a)) after = true ->
  Protocol.is_closing a = true ->
  let w' := run ((before ++ [Protocol.StartGame sim ship] ++ after) ++ [a])
                (Protocol.new now) in
  intervals w' = ∅
  /\ forall id, perform (Protocol.IntervalElapsed id) w' = (Normal tt, w').
Proof.
  intros Hbefore Hafter Ha w'.
  assert (E : intervals w' = ∅).
  { subst w'. rewrite run_app. apply (closing_clears a _ Ha).
    apply started_once; [assumption|assumption|reflexivity]. }
  split; [exact E|]. intros id. unfold Protocol.perform. unfold_M.
  rewrite E, bool_decide_eq_false_2; [reflexivity|apply not_elem_of_empty].
Qed.

(** X16.  [startGame] called a second time loses the first timer: [close]
    cancels the one started last, the first one stays live, and each of its
    ticks goes on sending a probe.  (The timer module is taken as the
    specification describes it.) *)
Theorem second_start_leaks_a_timer
    (w : World) (sim1 sim2 : Simulation) (ship1 ship2 : Z) (a : Protocol.Action) :
  Protocol.is_closing a = true ->
  let w' := run [Protocol.StartGame sim1 ship1; Protocol.StartGame sim2 ship2; a] w in
  nextInterval w ∈ intervals w'
  /\ perform (Protocol.IntervalElapsed (nextInterval w)) w'
     = Protocol.syncClocks JSON_stringify w'.
Proof.
  intros Ha w'.
  assert (E : nextInterval w ∈ intervals w').
  { subst w'. rewrite !(run_cons JSON_parse JSON_stringify).
    change (run [] ?x) with x. rewrite (closing_world a _ Ha). cbn.
    unfold Protocol.perform.
    destruct (startGame_timer sim1 ship1 w) as (Hi1 & Hn1 & Hs1).
    destruct (startGame_timer sim2 ship2
                (exec (Protocol.startGame JSON_stringify sim1 ship1) w))
      as (Hi2 & Hn2 & Hs2).
    rewrite Hs2, Hi2, Hn1, Hi1.
    apply elem_of_difference. split.
    - apply elem_of_union_l, elem_of_union_r, elem_of_singleton. reflexivity.
    - intros H%elem_of_singleton. lia. }
  split; [exact E|]. unfold Protocol.perform. unfold_M.
  rewrite bool_decide_eq_true_2 by exact E. reflexivity.
Qed.


(** ** 32-bit stamps *)

(** X17.  [asInt32] keeps exactly the low 32 bits: two numbers get the
    same stamp just when they differ by a multiple of 2^32, the stamp is
    the number itself just when that is a signed 32-bit integer, and
    stamping twice changes nothing. *)
Theorem asInt32_keeps_the_low_32_bits (a b : Z) :
  (Protocol.asInt32 a = Protocol.asInt32 b <-> a mod two32 = b mod two32)
  /\ (Protocol.asInt32 a = a <-> - two31 <= a < two31)
  /\ Protocol.asInt32 (Protocol.asInt32 a) = Protocol.asInt32 a.
Proof.
  unfold Protocol.asInt32. split; [|split].
  - split; intros H.
    + rewrite <- (asInt32_mod a), <- (asInt32_mod b), H. reflexivity.
    + pose proof (asInt32_range a). pose proof (asInt32_range b).
      rewrite <- (asInt32_mod a), <- (asInt32_mod b) in H.
      unfold two31, two32 in *. Z.div_mod_to_equations. lia.
  - split; intros H.
    + rewrite <- H. apply asInt32_range.
    + rewrite asInt32_ToInt32. apply ToInt32_small, H.
  - rewrite (asInt32_ToInt32 (asInt32 a)). apply ToInt32_small, asInt32_range.
Qed.

(** ** A clock-sync reply, end to end *)

Lemma invoke_keeps_estimate (t0 serverTime now : Z) (h : PacketHandler) :
  - two31 <= t0 < two31 -> - two32 <= serverTime <= two32 ->
  let rtt := wrapNegative (asInt32 now - t0) in
  preserves (fun w => Date_now w = now /\ roundTripTime w = rtt
                      /\ serverTimeDelta w
                         = wrapNegative ((5 * (serverTime - t0) - 3 * rtt) / 5))
    (Protocol.invoke h [JInt t0; JInt serverTime]).
Proof.
  intros Ht Hs rtt. unfold Protocol.invoke. apply preserves_bind.
  - apply preserves_modify. intros w H. exact H.
  - intros _. destruct h; [|apply preserves_ret].
    intros w (Hnow & _ & _).
    rewrite onClockSyncReply_32bit by assumption. cbn. rewrite Hnow.
    repeat split; reflexivity.
Qed.

(** X18.  A well-formed clock-sync reply updates the estimate in every
    reachable state: no handler an application registers for that packet
    type, before or after, can get in the way, because the protocol's own
    handler is registered first and later handlers leave the estimate as it
    is. *)
Theorem clock_sync_frame_always_updates
    (actions : list Protocol.Action) (now : Z) (data : string) (t0 serverTime : Z) :
  JSON_parse data
  = Some (JArr [JInt S2CPacketType.CLOCK_SYNC_REPLY; JInt t0; JInt serverTime]) ->
  - two31 <= t0 < two31 -> - two32 <= serverTime <= two32 ->
  let w := run actions (Protocol.new now) in
  let rtt := wrapNegative (asInt32 (Date_now w) - t0) in
  roundTripTime (exec (onMessage data) w) = rtt
  /\ serverTimeDelta (exec (onMessage data) w)
     = wrapNegative ((5 * (serverTime - t0) - 3 * rtt) / 5).
Proof.
  intros Hdata Ht Hs w rtt.
  destruct (run_clock_sync_first actions now) as [more Hhs]. fold w in Hhs.
  unfold exec.
  rewrite (onMessage_handled JSON_parse data S2CPacketType.CLOCK_SYNC_REPLY
             [JInt t0; JInt serverTime] (OnClockSyncReply :: more) w Hdata Hhs).
  cbn [forEach]. unfold mbind, M_bind.
  assert (E : exists w1,
             Protocol.invoke OnClockSyncReply [JInt t0; JInt serverTime] w = (Normal tt, w1)
             /\ Date_now w1 = Date_now w /\ roundTripTime w1 = rtt
             /\ serverTimeDelta w1
                = wrapNegative ((5 * (serverTime - t0) - 3 * rtt) / 5)).
  { unfold Protocol.invoke. unfold_M.
    rewrite onClockSyncReply_32bit by assumption.
    eexists. split; [reflexivity|]. repeat split; reflexivity. }
  destruct E as (w1 & -> & Hnow & Hrtt & Hdelta).
  destruct (preserves_forEach _ _ more
              (fun h => invoke_keeps_estimate t0 serverTime (Date_now w) h Ht Hs) w1)
    as (_ & Hr & Hd).
  - repeat split; assumption.
  - split; [exact Hr|exact Hd].
Qed.


(** ** The simulation, once attached *)





(** ** Packet types do not interfere *)

Lemma invoke_set_handlers
    (h : PacketHandler) (payload : list json)
    (hs : gmap Z (list PacketHandler)) (w : World) :
  Protocol.invoke h payload (set_handlers hs w)
  = (fst (Protocol.invoke h payload w), set_handlers hs (snd (Protocol.invoke h payload w))).
Proof.
  unfold Protocol.invoke. destruct h; [|reflexivity].
  unfold Protocol.onClockSyncReply, integer_at.
  destruct (payload !! 0%nat) as [[| |[t0|]| | |]|]; try reflexivity.
  destruct (payload !! 1%nat) as [[| |[s|]| | |]|]; try reflexivity.
  unfold_M. cbn [snd fst Date_now set_effects set_handlers].
  destruct (floor_delta _ _ _) as [d|]; [|reflexivity].
  cbn. destruct (d <? 0); reflexivity.
Qed.

Lemma forEach_invoke_set_handlers
    (l : list PacketHandler) (payload : list json)
    (hs : gmap Z (list PacketHandler)) (w : World) :
  forEach (fun h => Protocol.invoke h payload) l (set_handlers hs w)
  = (fst (forEach (fun h => Protocol.invoke h payload) l w),
     set_handlers hs (snd (forEach (fun h => Protocol.invoke h payload) l w))).
Proof.
  revert w. induction l as [|h l IH]; intros w; [reflexivity|].
  cbn [forEach]. unfold mbind, M_bind. rewrite invoke_set_handlers.
  destruct (Protocol.invoke h payload w) as [[[]| |] w1]; cbn [fst snd];
    [apply IH|reflexivity|reflexivity].
Qed.

(** X20.  Packet types do not interfere: registering a handler for one
    type changes nothing in what a frame of another type does, it ends the
    same way and leaves the same state, the new registration apart. *)
Theorem other_types_are_unaffected
    (data : string) (t t' : Z) (payload : list json) (cb : PacketHandler) (w : World) :
  JSON_parse data = Some (JArr (JInt t' :: payload)) ->
  t <> t' ->
  let w1 := exec (Protocol.registerPacketHandler t cb) w in
  onMessage data w1
  = (fst (onMessage data w), set_handlers (handlers w1) (snd (onMessage data w))).
Proof.
  intros Hdata Hne w1.
  destruct (registerPacketHandler_returns t cb w) as (hs & E & _ & Hother).
  assert (E1 : w1 = set_handlers hs w) by (subst w1; unfold exec; rewrite E; reflexivity).
  rewrite E1. cbn [handlers set_handlers].
  unfold Protocol.onMessage. rewrite Hdata. unfold index0, slice1, JInt. unfold_M.
  cbn [handlers set_handlers handlers_get head tail].
  rewrite (Hother t') by congruence.
  destruct (handlers w !! t') as [l|]; [|reflexivity].
  apply forEach_invoke_set_handlers.
Qed.

End MoreFacts.

(** ** The further properties at work *)

Lemma calls_and_events_return_normally_witness :
  is_message (Protocol.SendChat "hello") = false
  /\ exists w',
      Protocol.perform Sample.parse Sample.stringify (Protocol.SendChat "hello")
        (Protocol.new 0)
      = (Normal tt, w').
Proof.
  split; [reflexivity|].
  apply (calls_and_events_return_normally Sample.parse Sample.stringify). reflexivity.
Defined.

Lemma open_socket_has_empty_queue_witness :
  let actions :=
    [Protocol.Login JNull; Protocol.SocketOpened; Protocol.SendShipChange 2] in
  readyState (Protocol.run Sample.parse Sample.stringify actions (Protocol.new 0)) = OPEN
  /\ packetQueue (Protocol.run Sample.parse Sample.stringify actions (Protocol.new 0)) = [].
Proof.
  intros actions.
  assert (readyState (Protocol.run Sample.parse Sample.stringify actions (Protocol.new 0))
          = OPEN) as H by reflexivity.
  split; [exact H|].
  apply (open_socket_has_empty_queue Sample.parse Sample.stringify actions (Protocol.new 0));
    [discriminate|exact H].
Defined.

Lemma nothing_is_sent_before_open_witness :
  let actions :=
    [Protocol.Login JNull; Protocol.StartGame {| getTimeMillis := 0 |} 1;
     Protocol.IntervalElapsed 1; Protocol.SocketClosed; Protocol.SendShipChange 2] in
  Protocol.transmitted
    (Protocol.run Sample.parse Sample.stringify actions (Protocol.new 0)) = [].
Proof.
  intros actions.
  apply (nothing_is_sent_before_open Sample.parse Sample.stringify actions (Protocol.new 0));
    [discriminate|reflexivity].
Defined.

Lemma nothing_is_sent_after_close_witness :
  let opened :=
    Protocol.run Sample.parse Sample.stringify [Protocol.SocketOpened] (Protocol.new 0) in
  Protocol.transmitted
    (Protocol.run Sample.parse Sample.stringify
       [Protocol.SocketClosed; Protocol.SendShipChange 2; Protocol.SendSetPresence 1]
       opened)
  = Protocol.transmitted opened.
Proof.
  intros opened.
  apply (nothing_is_sent_after_close Sample.parse Sample.stringify Protocol.SocketClosed
           [Protocol.SendShipChange 2; Protocol.SendSetPresence 1] opened);
    reflexivity.
Defined.

Lemma queue_only_grows_while_connecting_witness :
  exists more,
    packetQueue
      (Protocol.run Sample.parse Sample.stringify
         [Protocol.SendShipChange 2; Protocol.SendSetPresence 1]
         (exec (Protocol.login Sample.stringify JNull) (Protocol.new 0)))
    = ["[1,null]"%string] ++ more.
Proof.
  apply (queue_only_grows_while_connecting Sample.parse Sample.stringify
           [Protocol.SendShipChange 2; Protocol.SendSetPresence 1]
           (exec (Protocol.login Sample.stringify JNull) (Protocol.new 0)));
    [discriminate|reflexivity].
Defined.

Lemma login_is_the_first_frame_witness :
  exists more,
    Protocol.transmitted
      (Protocol.run Sample.parse Sample.stringify
         (Application.constructor JNull JNull
          ++ [Protocol.SendShipChange 2] ++ [Protocol.SocketOpened])
         (Protocol.new 0))
    = Sample.stringify
        (JArr [JInt C2SPacketType.LOGIN; Application.loginData JNull JNull])
      :: more.
Proof.
  apply (login_is_the_first_frame Sample.parse Sample.stringify JNull JNull 0
           [Protocol.SendShipChange 2]).
  reflexivity.
Defined.

Lemma reply_measures_round_trip_witness :
  0 <= 1762041600150 - 1762041600000 < two32
  /\ roundTripTime
       (exec (Protocol.onClockSyncReply [JInt (asInt32 1762041600000); JInt 5000])
             (Protocol.new 1762041600150))
     = 150.
Proof.
  assert (0 <= 1762041600150 - 1762041600000 < two32) as H
    by (vm_compute; split; [discriminate|reflexivity]).
  split; [exact H|].
  destruct (reply_measures_round_trip Sample.stringify (Protocol.new 0)
              1762041600000 1762041600150 5000 [] H) as [_ E].
  exact (E (Protocol.new 1762041600150) eq_refl).
Defined.

Lemma round_trip_time_is_not_negative_witness :
  0 <= roundTripTime
         (exec (Protocol.onClockSyncReply [JInt 1000; JInt (-7)]) (Protocol.new 1200))
    < two32.
Proof.
  apply (round_trip_time_is_not_negative (Protocol.new 1200) 1000 (-7) []).
  unfold two31. lia.
Defined.

Lemma latest_reply_replaces_the_estimate_witness :
  exec (Protocol.onClockSyncReply [JInt 1000; JInt 5000])
       (set_Date_now 1200
          (exec (Protocol.onClockSyncReply [JInt 10; JInt 99]) (Protocol.new 20)))
  = exec (Protocol.onClockSyncReply [JInt 1000; JInt 5000])
         (set_Date_now 1200 (Protocol.new 20)).
Proof.
  apply (latest_reply_replaces_the_estimate (Protocol.new 20) [JInt 10; JInt 99]
           1200 1000 5000 []).
  - unfold two31. lia.
  - unfold two32. lia.
Defined.

Lemma estimate_is_within_the_round_trip_witness :
  let delta :=
    serverTimeDelta
      (exec (Protocol.onClockSyncReply [JInt 1000; JInt 5000]) (Protocol.new 1200)) in
  5 * 3900 - 3 * wrapNegative (asInt32 (Date_now (Protocol.new 1200)) - 1000) - 5
  < 5 * delta
  <= 5 * 3900 + 2 * wrapNegative (asInt32 (Date_now (Protocol.new 1200)) - 1000).
Proof.
  apply (estimate_is_within_the_round_trip (Protocol.new 1200) 1000 5000 100 3900 []).
  - unfold two31. lia.
  - unfold two32. lia.
  - vm_compute. split; discriminate.
  - reflexivity.
  - vm_compute. discriminate.
Defined.

Lemma registered_handlers_stay_witness :
  exists more,
    handlers
      (Protocol.run Sample.parse Sample.stringify
         [Protocol.RegisterPacketHandler 5 (Extern 3); Protocol.SocketClosed]
         (Protocol.new 0)) !! 5
    = Some ([OnClockSyncReply] ++ more).
Proof.
  apply (registered_handlers_stay Sample.parse Sample.stringify
           [Protocol.RegisterPacketHandler 5 (Extern 3); Protocol.SocketClosed]
           (Protocol.new 0) 5 [OnClockSyncReply]).
  reflexivity.
Defined.

Lemma frames_that_throw_witness :
  let parse := fun _ : string => Some (JObj [("0"%string, JInt 5); ("1"%string, JInt 7)]) in
  exists message,
    Protocol.onMessage parse "{}" (Protocol.new 0)
    = (Abrupt (TypeError message), Protocol.new 0).
Proof.
  intros parse.
  apply (frames_that_throw parse "{}" (Protocol.new 0)).
  exists [OnClockSyncReply]. reflexivity.
Defined.

Lemma loss_before_the_game_is_unreported_witness :
  Protocol.notified
    (Protocol.run Sample.parse Sample.stringify
       (Application.constructor JNull JNull
        ++ [Protocol.SocketError; Protocol.SocketClosed]
        ++ Game.constructor {| getTimeMillis := 0 |} 1
        ++ [Protocol.SendShipChange 2])
       (Protocol.new 0))
  = [Noop; Noop].
Proof.
  apply (loss_before_the_game_is_unreported Sample.parse Sample.stringify JNull JNull 0
           [Protocol.SocketError; Protocol.SocketClosed] [Protocol.SendShipChange 2]
           {| getTimeMillis := 0 |} 1).
  - repeat constructor.
  - reflexivity.
Defined.

Lemma close_stops_the_probe_timer_witness :
  let w' :=
    Protocol.run Sample.parse Sample.stringify
      (([Protocol.Login JNull] ++ [Protocol.StartGame {| getTimeMillis := 0 |} 1]
        ++ [Protocol.IntervalElapsed 1]) ++ [Protocol.SocketClosed])
      (Protocol.new 0) in
  intervals w' = ∅
  /\ forall id,
       Protocol.perform Sample.parse Sample.stringify (Protocol.IntervalElapsed id) w'
       = (Normal tt, w').
Proof.
  apply (close_stops_the_probe_timer Sample.parse Sample.stringify
           [Protocol.Login JNull] [Protocol.IntervalElapsed 1]
           {| getTimeMillis := 0 |} 1 Protocol.SocketClosed 0);
    reflexivity.
Defined.

Lemma second_start_leaks_a_timer_witness :
  let w' :=
    Protocol.run Sample.parse Sample.stringify
      [Protocol.StartGame {| getTimeMillis := 0 |} 1;
       Protocol.StartGame {| getTimeMillis := 0 |} 1; Protocol.SocketClosed]
      (Protocol.new 0) in
  nextInterval (Protocol.new 0) ∈ intervals w'
  /\ Protocol.perform Sample.parse Sample.stringify
       (Protocol.IntervalElapsed (nextInterval (Protocol.new 0))) w'
     = Protocol.syncClocks Sample.stringify w'.
Proof.
  apply (second_start_leaks_a_timer Sample.parse Sample.stringify (Protocol.new 0)
           {| getTimeMillis := 0 |} {| getTimeMillis := 0 |} 1 1 Protocol.SocketClosed).
  reflexivity.
Defined.

Lemma clock_sync_frame_always_updates_witness :
  let w :=
    Protocol.run Sample.parse Sample.stringify
      [Protocol.RegisterPacketHandler 5 (Extern 3)] (Protocol.new 1200) in
  roundTripTime (exec (Protocol.onMessage Sample.parse "[5,1000,5000]") w) = 200
  /\ serverTimeDelta (exec (Protocol.onMessage Sample.parse "[5,1000,5000]") w) = 3880.
Proof.
  apply (clock_sync_frame_always_updates Sample.parse Sample.stringify
           [Protocol.RegisterPacketHandler 5 (Extern 3)] 1200 "[5,1000,5000]" 1000 5000).
  - reflexivity.
  - unfold two31. lia.
  - unfold two32. lia.
Defined.

Lemma other_types_are_unaffected_witness :
  let w1 := exec (Protocol.registerPacketHandler 3 (Extern 1)) (Protocol.new 0) in
  Protocol.onMessage Sample.parse "[2,7]" w1
  = (fst (Protocol.onMessage Sample.parse "[2,7]" (Protocol.new 0)),
     set_handlers (handlers w1)
       (snd (Protocol.onMessage Sample.parse "[2,7]" (Protocol.new 0)))).
Proof.
  apply (other_types_are_unaffected Sample.parse "[2,7]" 3 2 [JInt 7] (Extern 1)
           (Protocol.new 0)).
  - reflexivity.
  - discriminate.
Defined.
